(** * Validation schemas and route paths of the JSON-API toolkit

    A shallow embedding of [src/validation/boolean.ts], [array.ts] and
    [date.ts] (the schema classes), together with the [Path] class of
    [src/routing/path.ts], whose behaviour is pinned by [path.test.ts],
    and the [endpoint] function of [src/routing/endpoint.ts] with its
    [handle], [documentation] and [paramDocs].

    JavaScript values are an inductive type, [throw] is a three-way
    outcome (returned value, [ValidationError], any other thrown value),
    and a user-supplied item schema threads an explicit state so that the
    calls made to it are observable. *)

From Stdlib Require Import ZArith Ascii DecimalString.
From stdpp Require Import base option list gmap strings.

Set Warnings "-register-all".

(* ================================================================= *)
(** * Part I: definitions *)
(* ================================================================= *)

(** ** JavaScript values *)

(** A JavaScript [number], as far as the schemas look at it: [NaN],
    the two infinities, an integer value, or a finite value that is not
    an integer, given by its floor and the text [toString] prints for it.
    [Num_int 0] stands for both zeros, which are equally falsy and print
    alike; the integers meant are those a double holds exactly and
    [toString] prints digit for digit, of magnitude at most 2^53
    ([number_exact] below). *)
Inductive number : Type :=
| Num_NaN
| Num_Infinity (negative : bool)
| Num_int (z : Z)
| Num_frac (floor : Z) (text : string).

(** A [Date] object is its time value; [None] is the NaN time value of
    an invalid date. *)
Record Date : Type := mkDate { timeValue : option Z }.

Inductive JsValue : Type :=
| JsUndefined
| JsNull
| JsBoolean (b : bool)
| JsNumber (n : number)
| JsBigInt (z : Z)
| JsString (s : string)
| JsSymbol (description : string)
| JsFunction (name : string)
| JsDate (d : Date)
| JsArray (items : list JsValue)
| JsObject (props : list (string * JsValue)).

(** The [typeof] operator. *)
Definition typeof (obj : JsValue) : string :=
  match obj with
  | JsUndefined => "undefined"
  | JsNull => "object"
  | JsBoolean _ => "boolean"
  | JsNumber _ => "number"
  | JsBigInt _ => "bigint"
  | JsString _ => "string"
  | JsSymbol _ => "symbol"
  | JsFunction _ => "function"
  | JsDate _ => "object"
  | JsArray _ => "object"
  | JsObject _ => "object"
  end.

(** [Number.prototype.toString] on the numbers of the model, and on an
    array length or index. *)
Definition nat_toString (n : nat) : string :=
  NilZero.string_of_uint (Nat.to_uint n).

Definition Z_toString (z : Z) : string :=
  NilZero.string_of_int (Z.to_int z).

Definition number_toString (n : number) : string :=
  match n with
  | Num_NaN => "NaN"
  | Num_Infinity false => "Infinity"
  | Num_Infinity true => "-Infinity"
  | Num_int z => Z_toString z
  | Num_frac _ text => text
  end.

(** The whole numbers whose text [number_toString] gives as the code
    prints it: up to 2^53 in magnitude every whole number is a double of
    its own and [toString] prints all its digits.  Beyond, [toString]
    rounds to the shortest digits that give the double back (2^64 prints
    as 18446744073709552000), and from 1e21 on it prints an exponent; a
    statement about the text of a whole number assumes [exact_integer]. *)
Definition exact_integer (z : Z) : Prop :=
  (Z.abs z <= 9007199254740992)%Z.

Definition number_exact (n : number) : Prop :=
  match n with
  | Num_int z => exact_integer z
  | _ => True
  end.

(** Truthiness of a number: [0] and [NaN] are falsy. *)
Definition number_truthy (n : number) : bool :=
  match n with
  | Num_NaN => false
  | Num_Infinity _ => true
  | Num_int z => negb (z =? 0)%Z
  | Num_frac _ _ => true
  end.

(** [len < n] and [len > n] for an array length [len]. *)
Definition length_lt (len : nat) (n : number) : bool :=
  match n with
  | Num_NaN => false
  | Num_Infinity negative => negb negative
  | Num_int z => (Z.of_nat len <? z)%Z
  | Num_frac floor _ => (Z.of_nat len <=? floor)%Z
  end.

Definition length_gt (len : nat) (n : number) : bool :=
  match n with
  | Num_NaN => false
  | Num_Infinity negative => negative
  | Num_int z => (z <? Z.of_nat len)%Z
  | Num_frac floor _ => (floor <? Z.of_nat len)%Z
  end.

(** ** Issues and validation errors *)

(** Modelled from the spec: the issue kinds of [validation/error.ts]
    that the schemas here produce. *)
Inductive IssueKind : Type := invalidType | tooShort | tooLong.

(** Modelled from the spec: the [Issue] class of [validation/error.ts],
    a record of kind, path, expected and actual. *)
Record Issue : Type := mkIssue {
  issue_kind : IssueKind;
  issue_path : list string;
  issue_expected : string;
  issue_actual : string
}.

(** Modelled from the spec: the [ValidationError] class of
    [validation/error.ts], an ordered sequence of issues. *)
Record ValidationError : Type := mkValidationError { issues : list Issue }.

(** Modelled from the spec: [ValidationError.withPrefix] of
    [validation/error.ts]; a new issue sequence with the segment put in
    front of every issue's path. *)
Definition withPrefix (err : ValidationError) (segment : string) : list Issue :=
  map (fun i => mkIssue (issue_kind i) (segment :: issue_path i)
                        (issue_expected i) (issue_actual i))
      (issues err).

(** What a call does: return, throw a [ValidationError], or throw
    something else. *)
Inductive Outcome (E A : Type) : Type :=
| Return (a : A)
| ThrowValidation (err : ValidationError)
| Throw (e : E).

Arguments Return {E A} a.
Arguments ThrowValidation {E A} err.
Arguments Throw {E A} e.

(** The [Schema<T>] interface.  [St] is whatever state a user-supplied
    schema keeps, [E] what it may throw besides [ValidationError]. *)
Record Schema (St E T : Type) : Type := mkSchema {
  parse : JsValue -> St -> Outcome E T * St;
  documentation : JsValue
}.

Arguments mkSchema {St E T} parse documentation.
Arguments parse {St E T} _ obj st.
Arguments documentation {St E T} _.

(** ** [BooleanSchema] *)

Definition BooleanSchema_parse {E : Type} (obj : JsValue) : Outcome E bool :=
  match obj with
  | JsBoolean b => Return b
  | _ => ThrowValidation
           (mkValidationError [mkIssue invalidType [] "boolean" (typeof obj)])
  end.

Definition BooleanSchema_documentation : JsValue :=
  JsObject [("type", JsString "boolean")].

Definition boolean {St E : Type} : Schema St E bool :=
  mkSchema (fun obj st => (BooleanSchema_parse obj, st))
           BooleanSchema_documentation.

(** ** [DateSchema] *)

Section DateSchema.
(** The host's [Date.parse]: the time value a string denotes, if any.
    It depends on the engine and its locale. *)
Variable Date_parse : string -> option Z.

(** [TimeClip] of a number: not finite or beyond 8.64e15 ms is NaN; a
    fraction is dropped, towards zero. *)
Definition TimeClip (n : number) : option Z :=
  match n with
  | Num_int z => if (Z.abs z <=? 8640000000000000)%Z then Some z else None
  | Num_frac floor _ =>
      let z := (if floor <? 0 then floor + 1 else floor)%Z in
      if (Z.abs z <? 8640000000000000)%Z then Some z else None
  | _ => None
  end.

(** [new Date(obj)] for a string or a number. *)
Definition new_Date (obj : JsValue) : Date :=
  match obj with
  | JsString s => mkDate (Date_parse s)
  | JsNumber n => mkDate (TimeClip n)
  | _ => mkDate None
  end.

(** [date.toString() !== 'Invalid Date']: [toString] gives that text
    exactly for the NaN time value. *)
Definition not_Invalid_Date (d : Date) : bool :=
  match timeValue d with Some _ => true | None => false end.

Definition DateSchema_throw {E : Type} (obj : JsValue) : Outcome E Date :=
  ThrowValidation
    (mkValidationError [mkIssue invalidType [] "date" (typeof obj)]).

(** The first branch is [isDate(obj)] of [node:util/types], which
    holds of every [Date] object, valid or not. *)
Definition DateSchema_parse {E : Type} (obj : JsValue) : Outcome E Date :=
  match obj with
  | JsDate d => Return d
  | _ =>
      if String.eqb (typeof obj) "string" || String.eqb (typeof obj) "number"
      then
        let date := new_Date obj in
        if not_Invalid_Date date then Return date else DateSchema_throw obj
      else DateSchema_throw obj
  end.

Definition DateSchema_documentation : JsValue :=
  JsObject [("type", JsString "string"); ("format", JsString "date-time")].

Definition date {St E : Type} : Schema St E Date :=
  mkSchema (fun obj st => (DateSchema_parse obj, st))
           DateSchema_documentation.
End DateSchema.

(** ** [ArraySchema] *)

Section ArraySchema.
Context {St E T : Type}.

(** The fields of an [ArraySchema] object; an absent optional bound is
    [undefined]. *)
Record ArraySchema : Type := mkArraySchema {
  itemSchema : Schema St E T;
  minItems : option number;
  maxItems : option number
}.

(** [this.minItems && len < this.minItems], and likewise for the
    maximum: [undefined] is falsy. *)
Definition bound_fires (cmp : nat -> number -> bool)
           (bound : option number) (len : nat) : option number :=
  match bound with
  | Some n => if number_truthy n && cmp len n then Some n else None
  | None => None
  end.

(** The [for] loop of [parse]: [i] is the index of the head of
    [rest]; [elems] and [found] are the two accumulators. *)
Fixpoint parse_items (item : Schema St E T) (i : nat) (rest : list JsValue)
         (elems : list T) (found : list Issue) (st : St)
  : Outcome E (list T * list Issue) * St :=
  match rest with
  | [] => (Return (elems, found), st)
  | x :: rest' =>
      match parse item x st with
      | (Return v, st') =>
          parse_items item (S i) rest' (elems ++ [v]) found st'
      | (ThrowValidation err, st') =>
          parse_items item (S i) rest' elems
                      (found ++ withPrefix err (nat_toString i)) st'
      | (Throw e, st') => (Throw e, st')
      end
  end.

Definition ArraySchema_parse (this : ArraySchema) (obj : JsValue) (st : St)
  : Outcome E (list T) * St :=
  match obj with
  | JsArray items =>
      match bound_fires length_lt (minItems this) (length items) with
      | Some n =>
          (ThrowValidation
             (mkValidationError
                [mkIssue tooShort [] (number_toString n)
                         (nat_toString (length items))]), st)
      | None =>
          match bound_fires length_gt (maxItems this) (length items) with
          | Some n =>
              (ThrowValidation
                 (mkValidationError
                    [mkIssue tooLong [] (number_toString n)
                             (nat_toString (length items))]), st)
          | None =>
              match parse_items (itemSchema this) 0 items [] [] st with
              | (Return (elems, found), st') =>
                  match found with
                  | [] => (Return elems, st')
                  | _ :: _ => (ThrowValidation (mkValidationError found), st')
                  end
              | (ThrowValidation err, st') => (ThrowValidation err, st')
              | (Throw e, st') => (Throw e, st')
              end
          end
      end
  | _ =>
      (ThrowValidation
         (mkValidationError [mkIssue invalidType [] "array" (typeof obj)]),
       st)
  end.

Definition optional_number (o : option number) : JsValue :=
  match o with Some n => JsNumber n | None => JsUndefined end.

Definition ArraySchema_documentation (this : ArraySchema) : JsValue :=
  JsObject [("type", JsString "array");
            ("items", documentation (itemSchema this));
            ("minItems", optional_number (minItems this));
            ("maxItems", optional_number (maxItems this))].

(** *** The modifiers

    Each modifier is one constructor call: the fields of the object it
    builds, from those of the receiver. *)
Definition ArraySchema_min (this : ArraySchema) (items : number) : ArraySchema :=
  mkArraySchema (itemSchema this) (Some items) (maxItems this).

Definition ArraySchema_max (this : ArraySchema) (items : number) : ArraySchema :=
  mkArraySchema (itemSchema this) (minItems this) (Some items).

Definition ArraySchema_length (this : ArraySchema) (items : number) : ArraySchema :=
  mkArraySchema (itemSchema this) (Some items) (Some items).

(** [array(itemSchema)]: both bounds are left [undefined]. *)
Definition array (item : Schema St E T) : ArraySchema :=
  mkArraySchema item None None.

(** *** Objects

    Schema objects live in a store; a reference is an index into it, and
    [new] puts the object built at the end.  A method called through a
    reference reads the receiver from the store. *)
Local Abbreviation Store := (list ArraySchema).

Definition new (h : Store) (o : ArraySchema) : Store * nat :=
  (h ++ [o], length h).

Definition call_modifier (f : ArraySchema -> number -> ArraySchema)
           (h : Store) (this : nat) (items : number) : option (Store * nat) :=
  o ← h !! this; Some (new h (f o items)).

Definition call_parse (h : Store) (this : nat) (obj : JsValue) (st : St)
  : option (Outcome E (list T) * St) :=
  o ← h !! this; Some (ArraySchema_parse o obj st).

Definition call_documentation (h : Store) (this : nat) : option JsValue :=
  o ← h !! this; Some (ArraySchema_documentation o).
End ArraySchema.

Arguments ArraySchema : clear implicits.

Abbreviation Store St E T := (list (ArraySchema St E T)).

(** ** [Path] *)

Module Path.

(** Modelled from the spec: the segment variants of [routing/path.ts],
    a literal text or a named parameter. *)
Inductive SegmentKind : Type :=
| Literal (text : string)
| Param (name : string).

(** Modelled from the spec: a segment of [routing/path.ts], its variant
    and the orthogonal flag [optional]. *)
Record Segment : Type := mkSegment {
  kind : SegmentKind;
  optional : bool
}.

(** Modelled from the spec: the [Path] class of [routing/path.ts], an
    ordered sequence of segments. *)
Record t : Type := mkPath { segments : list Segment }.

(** Modelled from the spec: the three fatal errors of the constructor
    of [routing/path.ts], with the pattern (and the offending segment)
    they name. *)
Inductive PathError : Type :=
| MustStartWithSlash (pattern : string)
| SegmentMismatch (pattern segment : string)
| OptionalOrder (pattern : string).

(** Modelled from the spec: the messages of the errors thrown by
    [routing/path.ts], as [path.test.ts] expects them. *)
Definition message (e : PathError) : string :=
  match e with
  | MustStartWithSlash p =>
      "API path " +:+ p +:+ " is invalid: Must start with '/'."
  | SegmentMismatch p s =>
      "API path " +:+ p +:+ " is invalid: Segment " +:+ s
      +:+ " does not match regex /^(:?[a-z0-9-]+\??)$/."
  | OptionalOrder p =>
      "API path " +:+ p
      +:+ " is invalid: Optional segment cannot be followed by non-optional segment."
  end.

Inductive Result (A : Type) : Type :=
| Ok (a : A)
| Fatal (e : PathError).

Arguments Ok {A} a.
Arguments Fatal {A} e.

(** [s.split('/')]: never empty, a single empty text on the empty string. *)
Fixpoint split (s : string) : list string :=
  match s with
  | EmptyString => [EmptyString]
  | String c s' =>
      if Ascii.eqb c "/"%char then EmptyString :: split s'
      else match split s' with
           | h :: tl => String c h :: tl
           | [] => [String c EmptyString]
           end
  end.

(** [parts.join('/')]. *)
Fixpoint join (parts : list string) : string :=
  match parts with
  | [] => EmptyString
  | [p] => p
  | p :: rest => p +:+ String "/"%char (join rest)
  end.

(** The character class [[a-z0-9-]]. *)
Definition token_char (c : ascii) : bool :=
  let n := Ascii.nat_of_ascii c in
  (97 <=? n) && (n <=? 122) || (48 <=? n) && (n <=? 57) || (n =? 45).

(** [[a-z0-9-]+\??$] on the rest of a segment. *)
Fixpoint token_then_question (s : string) : bool :=
  match s with
  | EmptyString => false
  | String c r =>
      token_char c &&
      match r with
      | EmptyString => true
      | String "?"%char EmptyString => true
      | _ => token_then_question r
      end
  end.

(** Modelled from the spec: the segment grammar of [routing/path.ts],
    the regex [/^(:?[a-z0-9-]+\??)$/] quoted by [path.test.ts]. *)
Definition segment_shape (s : string) : bool :=
  match s with
  | String c r =>
      if Ascii.eqb c ":" then token_then_question r
      else token_then_question s
  | EmptyString => false
  end.

(** [s.startsWith(c)] and [s.substring(1)] in one step. *)
Definition after_char (c : ascii) (s : string) : option string :=
  match s with
  | String c' r => if Ascii.eqb c' c then Some r else None
  | EmptyString => None
  end.

(** Dropping a final [?]; the flag tells whether there was one. *)
Fixpoint strip_question (s : string) : string * bool :=
  match s with
  | EmptyString => (EmptyString, false)
  | String c r =>
      match r with
      | EmptyString =>
          if Ascii.eqb c "?" then (EmptyString, true)
          else (String c EmptyString, false)
      | String _ _ => let (x, o) := strip_question r in (String c x, o)
      end
  end.

(** Modelled from the spec: the compilation of one segment text in
    [routing/path.ts]; a leading [:] makes a parameter of the token
    that follows, a final [?] makes the segment optional. *)
Definition compile (s : string) : Segment :=
  match after_char ":" s with
  | Some r => let (n, o) := strip_question r in mkSegment (Param n) o
  | None => let (x, o) := strip_question s in mkSegment (Literal x) o
  end.

(** Modelled from the spec: the text of one segment in
    [Path.toString] of [routing/path.ts]. *)
Definition segment_toString (g : Segment) : string :=
  match kind g with
  | Literal x => x
  | Param n => String ":"%char n
  end +:+ (if optional g then "?" else EmptyString).

(** Modelled from the spec: the optional-ordering check of
    [routing/path.ts]; [locked] is the state OptionalLocked, entered at
    the first optional segment. *)
Fixpoint ordered (locked : bool) (segs : list Segment) : bool :=
  match segs with
  | [] => true
  | g :: rest =>
      if optional g then ordered true rest
      else if locked then false else ordered false rest
  end.

(** Modelled from the spec: the first two checks of the constructor of
    [routing/path.ts]; the pattern starts with [/], and every non-empty
    segment text has the shape of the grammar.  An empty segment text is
    kept, and compiles to an empty literal. *)
Definition parse_pattern (pattern : string) : Result (list Segment) :=
  match after_char "/" pattern with
  | Some rest =>
      let texts := split rest in
      match List.find (fun s => negb (String.eqb s EmptyString) && negb (segment_shape s))
                      texts with
      | Some bad => Fatal (SegmentMismatch pattern bad)
      | None => Ok (map compile texts)
      end
  | None => Fatal (MustStartWithSlash pattern)
  end.

(** Modelled from the spec: [Path.toString] of [routing/path.ts]. *)
Definition toString (p : t) : string :=
  String "/"%char (join (map segment_toString (segments p))).

(** Modelled from the spec: the last step of construction in
    [routing/path.ts], shared by [new Path] and [withPrefix]. *)
Definition validated (pattern : string) (segs : list Segment) : Result t :=
  if ordered false segs then Ok (mkPath segs)
  else Fatal (OptionalOrder pattern).

(** Modelled from the spec: [new Path(pattern)] of [routing/path.ts]. *)
Definition new (pattern : string) : Result t :=
  match parse_pattern pattern with
  | Ok segs => validated pattern segs
  | Fatal e => Fatal e
  end.

(** Modelled from the spec: [Path.withPrefix] of [routing/path.ts];
    the prefix segments, then this path's, validated again. *)
Definition withPrefix (this : t) (prefix : string) : Result t :=
  match parse_pattern prefix with
  | Ok pre =>
      let segs := pre ++ segments this in
      validated (toString (mkPath segs)) segs
  | Fatal e => Fatal e
  end.

(** Modelled from the spec: the scan of [Path.match] in
    [routing/path.ts]; pattern segments left to right against the
    candidate's segment texts.  A required segment without a candidate
    text fails, an optional one ends the scan, a literal must equal the
    text, a parameter captures it, and texts left over fail. *)
Fixpoint scan (segs : list Segment) (cand : list string)
         (params : gmap string string) : option (gmap string string) :=
  match segs, cand with
  | [], [] => Some params
  | [], _ :: _ => None
  | g :: _, [] => if optional g then Some params else None
  | g :: segs', c :: cand' =>
      match kind g with
      | Literal x => if String.eqb c x then scan segs' cand' params else None
      | Param n => scan segs' cand' (<[n := c]> params)
      end
  end.

(** Modelled from the spec: [Path.match] of [routing/path.ts]; the
    candidate is split as a pattern is, so it starts with [/]. *)
Definition match_ (this : t) (candidate : string)
  : option (gmap string string) :=
  match after_char "/" candidate with
  | Some rest => scan (segments this) (split rest) ∅
  | None => None
  end.

End Path.


(** ** What the specification says of the array loop

    These follow the words of the specification, not the code: every
    item is given to the item schema in turn, the issues of the
    validation errors are gathered under the item's index, and the
    returned values are kept in order. *)

Section ItemOutcomes.
Context {St E T : Type}.

(** The item schema applied to each item in turn, from left to
    right. *)
Fixpoint item_outcomes (item : Schema St E T) (items : list JsValue)
         (st : St) : list (Outcome E T) * St :=
  match items with
  | [] => ([], st)
  | x :: rest =>
      let (o, st1) := parse item x st in
      let (os, st2) := item_outcomes item rest st1 in
      (o :: os, st2)
  end.

(** The issues of the [ValidationError]s among the outcomes, each
    under the decimal index of its item, in item order; [i] is the
    index of the first outcome. *)
Fixpoint collected (i : nat) (os : list (Outcome E T)) : list Issue :=
  match os with
  | [] => []
  | ThrowValidation err :: rest =>
      withPrefix err (nat_toString i) ++ collected (S i) rest
  | _ :: rest => collected (S i) rest
  end.

(** The values of the items that parsed, in item order. *)
Fixpoint returned (os : list (Outcome E T)) : list T :=
  match os with
  | [] => []
  | Return v :: rest => v :: returned rest
  | _ :: rest => returned rest
  end.

(** No outcome is a thrown value other than a [ValidationError]. *)
Definition only_validation (os : list (Outcome E T)) : Prop :=
  forall e, Throw e ∉ os.
End ItemOutcomes.

(** ** Schemas used in the examples *)

(** An item schema that records every value it is asked to parse,
    accepts booleans, and throws the string itself on a string. *)
Definition recording_parse (obj : JsValue) (log : list JsValue)
  : Outcome string bool * list JsValue :=
  (match obj with
   | JsString s => Throw s
   | _ => BooleanSchema_parse obj
   end, log ++ [obj]).

Definition recording : Schema (list JsValue) string bool :=
  mkSchema recording_parse BooleanSchema_documentation.

(** The schema [array(boolean()).min(2).max(4)] of the tests. *)
Definition booleans_2_4 : ArraySchema unit Empty_set bool :=
  ArraySchema_max (ArraySchema_min (array boolean) (Num_int 2)) (Num_int 4).

(** A schema whose minimum exceeds its maximum. *)
Definition booleans_5_2 : ArraySchema unit Empty_set bool :=
  ArraySchema_max (ArraySchema_min (array boolean) (Num_int 5)) (Num_int 2).

(** [k(new Path(pattern))], and what [new Path(pattern)] throws, for
    the assertions of [path.test.ts]. *)
Definition with_path {A : Type} (pattern : string) (k : Path.t -> A)
  : Path.Result A :=
  match Path.new pattern with
  | Path.Ok p => Path.Ok (k p)
  | Path.Fatal e => Path.Fatal e
  end.

Definition with_prefixed {A : Type} (pattern prefix : string) (k : Path.t -> A)
  : Path.Result A :=
  match Path.new pattern with
  | Path.Ok p =>
      match Path.withPrefix p prefix with
      | Path.Ok q => Path.Ok (k q)
      | Path.Fatal e => Path.Fatal e
      end
  | Path.Fatal e => Path.Fatal e
  end.

Definition thrown (pattern : string) : option string :=
  match Path.new pattern with
  | Path.Ok _ => None
  | Path.Fatal e => Some (Path.message e)
  end.

(** The path [/abc/:id?] of the tests, compiled. *)
Definition abc_id : Path.t :=
  Path.mkPath [Path.mkSegment (Path.Literal "abc") false;
               Path.mkSegment (Path.Param "id") true].

(** A candidate's segment text reaches the parameter [n] of the pattern
    at index [i]. *)
Definition reaches (segs : list Path.Segment) (cand : list string)
           (i : nat) (n v : string) : Prop :=
  exists g, segs !! i = Some g /\ Path.kind g = Path.Param n
            /\ cand !! i = Some v.

(** An optional segment at [i] is followed by a non-optional one at
    [j]. *)
Definition optional_then_required (segs : list Path.Segment) (i j : nat) : Prop :=
  i < j /\ (exists g, segs !! i = Some g /\ Path.optional g = true)
  /\ (exists g, segs !! j = Some g /\ Path.optional g = false).

(** ** [ArraySchema] as a [Schema]

    An [ArraySchema] is itself a schema, so arrays nest. *)
Definition ArraySchema_schema {St E T : Type} (this : ArraySchema St E T)
  : Schema St E (list T) :=
  mkSchema (ArraySchema_parse this) (ArraySchema_documentation this).

(** What the specification of [array(boolean())] would list: one issue
    [invalidType] for every item that is not a boolean, under the decimal
    index of the item, and the booleans among the items. *)
Fixpoint boolean_issues (i : nat) (items : list JsValue) : list Issue :=
  match items with
  | [] => []
  | JsBoolean _ :: rest => boolean_issues (S i) rest
  | x :: rest =>
      mkIssue invalidType [nat_toString i] "boolean" (typeof x)
      :: boolean_issues (S i) rest
  end.

Fixpoint booleans_of (items : list JsValue) : list bool :=
  match items with
  | [] => []
  | JsBoolean b :: rest => b :: booleans_of rest
  | _ :: rest => booleans_of rest
  end.

(** ** Objects as the endpoint code reads them *)

(** [obj[key]] on the properties of an object, written as an object
    literal writes them: a key written twice has its last value. *)
Fixpoint get_own (props : list (string * JsValue)) (key : string)
  : option JsValue :=
  match props with
  | [] => None
  | (k, v) :: rest =>
      match get_own rest key with
      | Some w => Some w
      | None => if String.eqb k key then Some v else None
      end
  end.

(** [key in v], for the keys the endpoint code asks for ([properties],
    [required], [description]): no array, date or function has one of
    these, and none is inherited from [Object.prototype].  On a primitive
    the operator throws a [TypeError], which is [None] here. *)
Definition has_property (key : string) (v : JsValue) : option bool :=
  match v with
  | JsObject props =>
      Some (match get_own props key with Some _ => true | None => false end)
  | JsArray _ | JsDate _ | JsFunction _ => Some false
  | _ => None
  end.

(** [v[key]] where [key in v] has been asked before. *)
Definition get_property (v : JsValue) (key : string) : JsValue :=
  match v with
  | JsObject props => default JsUndefined (get_own props key)
  | _ => JsUndefined
  end.

(** [required.includes(name)] for a string [name]. *)
Definition includes (required : list JsValue) (name : string) : bool :=
  existsb (fun v => match v with
                    | JsString s => String.eqb s name
                    | _ => false
                    end) required.

(** ** [paramDocs] *)

(** The object pushed for the property at index [i]. *)
Definition param_entry (required : list JsValue) (position : string)
           (i : nat) (property : JsValue) : option JsValue :=
  has ← has_property "description" property;
  Some (JsObject
          [("name", JsString (nat_toString i));
           ("in", JsString position);
           ("description",
            if has : bool then get_property property "description"
            else JsUndefined);
           ("required", JsBoolean (includes required (nat_toString i)));
           ("schema", property)]).

(** The [for ... in] loop over the array [docs.properties]: the names
    are the indices, in ascending order. *)
Fixpoint param_entries (required : list JsValue) (position : string)
         (i : nat) (properties : list JsValue) : option (list JsValue) :=
  match properties with
  | [] => Some []
  | property :: rest =>
      e ← param_entry required position i property;
      es ← param_entries required position (S i) rest;
      Some (e :: es)
  end.

(** [paramDocs(params, position)]; [None] when a [TypeError] is
    thrown. *)
Definition paramDocs {St E T : Type} (params : Schema St E T)
           (position : string) : option (list JsValue) :=
  let docs := documentation params in
  has ← has_property "properties" docs;
  if has : bool then
    match get_property docs "properties" with
    | JsArray properties =>
        has_required ← has_property "required" docs;
        let required :=
          if has_required : bool then
            match get_property docs "required" with
            | JsArray r => r
            | _ => []
            end
          else [] in
        param_entries required position 0 properties
    | _ => Some []
    end
  else Some [].

(** ** [endpoint] *)

(** What the endpoint code may see thrown besides a [ValidationError]:
    a [SyntaxError], a [BadRequestError], or anything else. *)
Inductive Exn (X : Type) : Type :=
| SyntaxError (message : string)
| BadRequestError (message : string)
| OtherError (x : X).

Arguments SyntaxError {X} message.
Arguments BadRequestError {X} message.
Arguments OtherError {X} x.

(** What a call threw, if it threw: a [ValidationError] or something
    else. *)
Definition thrown_of {E A : Type} (o : Outcome E A)
  : option (ValidationError + E) :=
  match o with
  | Return _ => None
  | ThrowValidation err => Some (inl err)
  | Throw e => Some (inr e)
  end.

(** Throwing it again. *)
Definition rethrow {E A : Type} (t : ValidationError + E) : Outcome E A :=
  match t with
  | inl err => ThrowValidation err
  | inr e => Throw e
  end.

(** The body of a response: a [Uint8Array], or any other value. *)
Inductive ResponseBody : Type :=
| Uint8Array (bytes : list Byte.byte)
| NotUint8Array (v : JsValue).

(** What [options.do] returns. *)
Record HandlerResponse : Type := mkHandlerResponse {
  response_status : option number;
  response_body : ResponseBody;
  response_headers : option (gmap string string)
}.

(** What [handle] returns. *)
Record Response : Type := mkResponse {
  status : number;
  body : list Byte.byte;
  headers : gmap string string
}.

Section Endpoint.
Context {St X RawBody Query Headers Req Log Http : Type}.

(** The request [handle] is given: [url], [body], [query] and the
    properties of the object [headers]. *)
Record Request : Type := mkRequest {
  req_url : string;
  req_body : RawBody;
  req_query : JsValue;
  req_headers : list (string * JsValue)
}.

(** [EndpointRequest]: what [options.do] is given. *)
Record EndpointRequest : Type := mkEndpointRequest {
  er_log : Log;
  er_http : Http;
  er_url : string;
  er_params : gmap string string;
  er_query : Query;
  er_headers : Headers;
  er_body : Req
}.

(** The part of a [BodyType] the endpoint uses. *)
Record BodyType : Type := mkBodyType {
  deserialize : RawBody -> JsValue -> St -> Outcome (Exn X) Req * St;
  bodyDocs : JsValue
}.

(** [EndpointOptions]; [res] is used for its [bodyDocs] only. *)
Record EndpointOptions : Type := mkEndpointOptions {
  opt_summary : string;
  opt_description : option string;
  opt_category : option string;
  opt_method : string;
  opt_query : Schema St (Exn X) Query;
  opt_headers : Schema St (Exn X) Headers;
  opt_req : BodyType;
  opt_res : JsValue;
  opt_do : EndpointRequest -> St -> Outcome (Exn X) HandlerResponse * St
}.

(** [ValidationError.format] of [validation/error.ts], the [Log] and
    [Http] objects made for each request, and
    [Buffer.from(JSON.stringify(v))]. *)
Variable format : ValidationError -> string.
Variable new_Log : Log.
Variable new_Http : Log -> Http.
Variable JSON_buffer : JsValue -> Outcome (Exn X) (list Byte.byte).

(** [req.headers['content-type'] ?? 'application/octet-stream']. *)
Definition content_type (req : Request) : JsValue :=
  match get_own (req_headers req) "content-type" with
  | Some JsUndefined | Some JsNull | None => JsString "application/octet-stream"
  | Some v => v
  end.

(** The body of the [try] block: the three values, in the order the
    code computes them. *)
Definition validate (options : EndpointOptions) (req : Request) (st : St)
  : Outcome (Exn X) (Req * Query * Headers) * St :=
  match deserialize (opt_req options) (req_body req) (content_type req) st with
  | (Return b, st1) =>
      match parse (opt_query options) (req_query req) st1 with
      | (Return q, st2) =>
          match parse (opt_headers options) (JsObject (req_headers req)) st2 with
          | (Return h, st3) => (Return (b, q, h), st3)
          | (ThrowValidation err, st3) => (ThrowValidation err, st3)
          | (Throw e, st3) => (Throw e, st3)
          end
      | (ThrowValidation err, st2) => (ThrowValidation err, st2)
      | (Throw e, st2) => (Throw e, st2)
      end
  | (ThrowValidation err, st1) => (ThrowValidation err, st1)
  | (Throw e, st1) => (Throw e, st1)
  end.

(** The [catch] block: what is thrown in place of what was caught, a
    [ValidationError] or anything else. *)
Definition caught (thrown : ValidationError + Exn X) : Exn X :=
  match thrown with
  | inr (SyntaxError m) => BadRequestError m
  | inl err => BadRequestError (format err)
  | inr e => e
  end.

(** The two [return] statements of [handle]. *)
Definition respond (response : HandlerResponse) : Outcome (Exn X) Response :=
  match response_body response with
  | Uint8Array bytes =>
      Return (mkResponse (default (Num_int 200) (response_status response))
                         bytes
                         (default ∅ (response_headers response)))
  | NotUint8Array v =>
      match JSON_buffer v with
      | Return bytes =>
          Return (mkResponse
                    (default (Num_int 200) (response_status response))
                    bytes
                    (default ∅ (response_headers response)
                     ∪ {[ "content-type" := "application/json" ]}))
      | ThrowValidation err => ThrowValidation err
      | Throw e => Throw e
      end
  end.

(** [handle(req, params)]. *)
Definition handle (options : EndpointOptions) (req : Request)
           (params : gmap string string) (st : St)
  : Outcome (Exn X) Response * St :=
  match validate options req st with
  | (Return (b, q, h), st1) =>
      match opt_do options
              (mkEndpointRequest new_Log (new_Http new_Log) (req_url req)
                                 params q h b) st1 with
      | (Return response, st2) => (respond response, st2)
      | (ThrowValidation err, st2) => (ThrowValidation err, st2)
      | (Throw e, st2) => (Throw e, st2)
      end
  | (ThrowValidation err, st1) => (Throw (caught (inl err)), st1)
  | (Throw e, st1) => (Throw (caught (inr e)), st1)
  end.

(** [options.category ?? path.split('/')[1]]. *)
Definition tag (path : string) (options : EndpointOptions) : JsValue :=
  match opt_category options with
  | Some c => JsString c
  | None =>
      match Path.split path !! 1 with
      | Some s => JsString s
      | None => JsUndefined
      end
  end.

(** [documentation()] of the endpoint; [None] when [paramDocs] throws
    a [TypeError]. *)
Definition endpoint_documentation (path : string) (options : EndpointOptions)
  : option JsValue :=
  q ← paramDocs (opt_query options) "query";
  h ← paramDocs (opt_headers options) "header";
  Some (JsObject
    [("tags", JsArray [tag path options]);
     ("summary", JsString (opt_summary options));
     ("description",
      match opt_description options with
      | Some d => JsString d
      | None => JsUndefined
      end);
     ("parameters", JsArray (q ++ h));
     ("requestBody",
      JsObject [("required", JsBoolean true);
                ("content", bodyDocs (opt_req options))]);
     ("responses",
      JsObject
        [("200", JsObject [("description", JsString "Success");
                           ("content", opt_res options)]);
         ("400",
          JsObject
            [("description", JsString "Bad Request");
             ("content",
              JsObject
                [("application/json",
                  JsObject
                    [("schema",
                      JsObject
                        [("type", JsString "object");
                         ("properties",
                          JsObject
                            [("status",
                              JsObject [("type", JsString "number")]);
                             ("error",
                              JsObject [("type", JsString "string")])])])])])])])]).
End Endpoint.

(** An endpoint for the examples.  Every call appends its name to the
    state.  The body is a text, refused with a [SyntaxError] when it is an
    opening brace alone; the query is a boolean; the headers are not
    looked at.  The handler answers [/raw] with one byte and status 201,
    a true query with the body as a value and a header of its own, and
    throws an empty [ValidationError] otherwise. *)
Definition example_options
  : @EndpointOptions (list string) string string bool unit string unit unit :=
  mkEndpointOptions "An example" None None "GET"
    (mkSchema (fun obj st => (BooleanSchema_parse obj, st ++ ["query"]))
              BooleanSchema_documentation)
    (mkSchema (fun obj st => (Return tt, st ++ ["headers"])) (JsObject []))
    (mkBodyType
       (fun raw contentType st =>
          (if String.eqb raw "{"
           then Throw (SyntaxError "Unexpected end of JSON input")
           else Return raw, st ++ ["deserialize"]))
       (JsObject []))
    (JsObject [])
    (fun request st =>
       (if String.eqb (er_url request) "/raw"
        then Return (mkHandlerResponse (Some (Num_int 201))
                                       (Uint8Array [Byte.x2a]) None)
        else if er_query request
        then Return (mkHandlerResponse
                       None (NotUint8Array (JsString (er_body request)))
                       (Some {[ "x-id" := "1" ]}))
        else ThrowValidation (mkValidationError []),
        st ++ ["do"])).

Definition example_format (err : ValidationError) : string :=
  "invalid request".

Definition example_JSON_buffer (v : JsValue)
  : Outcome (Exn string) (list Byte.byte) :=
  match v with
  | JsString _ => Return [Byte.x22; Byte.x22]
  | _ => Throw (OtherError "not serializable")
  end.

Definition example_handle :=
  handle example_format tt (fun _ : unit => tt) example_JSON_buffer
         example_options.

Definition example_request (url body : string) (query : JsValue)
  : @Request string :=
  mkRequest url body query [].

(** A schema documented as an object schema is, its [properties] an
    object keyed by name. *)
Definition object_documented : Schema unit Empty_set unit :=
  mkSchema (fun obj st => (Return tt, st))
           (JsObject [("type", JsString "object");
                      ("properties",
                       JsObject [("id", JsObject [("type", JsString "string")])]);
                      ("required", JsArray [JsString "id"])]).

(** A schema whose [properties] are an array. *)
Definition array_documented : Schema unit Empty_set unit :=
  mkSchema (fun obj st => (Return tt, st))
           (JsObject [("properties",
                       JsArray [JsObject [("description", JsString "first")];
                                JsObject [("type", JsString "string")]]);
                      ("required", JsArray [JsString "1"])]).

(* ================================================================= *)
(** * Part II: theorems *)
(* ================================================================= *)

(** ** Examples from the tests and the specification *)

Example booleans_2_4_empty :
  ArraySchema_parse booleans_2_4 (JsArray []) tt
  = (ThrowValidation (mkValidationError [mkIssue tooShort [] "2" "0"]), tt).
Proof. reflexivity. Qed.

Example booleans_2_4_five :
  ArraySchema_parse booleans_2_4
    (JsArray (map JsBoolean [true; false; true; false; true])) tt
  = (ThrowValidation (mkValidationError [mkIssue tooLong [] "4" "5"]), tt).
Proof. reflexivity. Qed.

Example booleans_2_4_one_bad :
  ArraySchema_parse booleans_2_4
    (JsArray [JsBoolean true; JsNumber (Num_int 1); JsBoolean false]) tt
  = (ThrowValidation
       (mkValidationError [mkIssue invalidType ["1"] "boolean" "number"]), tt).
Proof. reflexivity. Qed.

Example booleans_2_4_two_bad :
  ArraySchema_parse booleans_2_4
    (JsArray [JsNumber (Num_int 1); JsNumber (Num_int 2)]) tt
  = (ThrowValidation
       (mkValidationError [mkIssue invalidType ["0"] "boolean" "number";
                           mkIssue invalidType ["1"] "boolean" "number"]), tt).
Proof. reflexivity. Qed.

Example booleans_2_4_good :
  ArraySchema_parse booleans_2_4
    (JsArray [JsBoolean true; JsBoolean false; JsBoolean false]) tt
  = (Return [true; false; false], tt).
Proof. reflexivity. Qed.

(** ** The loop of [ArraySchema.parse] *)

Section ParseItems.
Context {St E T : Type}.
Implicit Types (item : Schema St E T) (os : list (Outcome E T)).

Lemma only_validation_cons (o : Outcome E T) os :
  only_validation (o :: os) ->
  (forall e, o <> Throw e) /\ only_validation os.
Proof.
  intros H. split.
  - intros e ->. apply (H e). left.
  - intros e He. apply (H e). now right.
Qed.

(** Over a prefix whose outcomes are returns and validation errors,
    the loop gathers what the specification says and goes on with the
    rest. *)
Lemma parse_items_app item pre : forall rest i elems found st os st1,
  item_outcomes item pre st = (os, st1) ->
  only_validation os ->
  parse_items item i (pre ++ rest) elems found st
  = parse_items item (i + length pre) rest
                (elems ++ returned os) (found ++ collected i os) st1.
Proof.
  induction pre as [|x pre IH]; intros rest i elems found st os st1 Hrun Hos.
  - simpl in Hrun. injection Hrun as <- <-. simpl.
    now rewrite Nat.add_0_r, !app_nil_r.
  - simpl in Hrun. simpl.
    destruct (parse item x st) as [o st'] eqn:Hx.
    destruct (item_outcomes item pre st') as [os' st''] eqn:Hpre.
    injection Hrun as <- <-.
    apply only_validation_cons in Hos as [Ho Hos'].
    destruct o as [v|err|e]; [| |now destruct (Ho e)]; simpl;
      rewrite (IH rest (S i) _ _ st' os' st'' Hpre Hos');
      now rewrite <- !app_assoc, Nat.add_succ_r.
Qed.

Lemma parse_items_all item items i elems found st os st1 :
  item_outcomes item items st = (os, st1) ->
  only_validation os ->
  parse_items item i items elems found st
  = (Return (elems ++ returned os, found ++ collected i os), st1).
Proof.
  intros Hrun Hos.
  rewrite <- (app_nil_r items) at 1.
  now rewrite (parse_items_app item items [] i elems found st os st1 Hrun Hos).
Qed.

(** Whatever the loop adds to the issues has come through
    [withPrefix], so its path is not empty. *)
Lemma parse_items_paths item items : forall i elems found st elems' found' st',
  parse_items item i items elems found st = (Return (elems', found'), st') ->
  forall x, x ∈ found' -> x ∈ found \/ issue_path x <> [].
Proof.
  induction items as [|y items IH]; intros i elems found st elems' found' st' H x Hx.
  - simpl in H. injection H as <- <- <-. now left.
  - simpl in H. destruct (parse item y st) as [[v|err|e] st1] eqn:Hy.
    + eapply IH; eauto.
    + destruct (IH _ _ _ _ _ _ _ H x Hx) as [Hin|Hp]; [|now right].
      apply elem_of_app in Hin as [Hin|Hin]; [now left|right].
      unfold withPrefix in Hin. apply list_elem_of_fmap in Hin as [z [-> _]].
      discriminate.
    + discriminate.
Qed.

(** A bound that fires is truthy and violated; the comparison alone
    already implies truthiness. *)
Lemma bound_fires_lt (bound : option number) len n :
  bound = Some n -> length_lt len n = true ->
  bound_fires length_lt bound len = Some n.
Proof.
  intros -> Hlt. unfold bound_fires. rewrite Hlt.
  destruct n as [|[]|z|fl x]; simpl in *; try discriminate; try reflexivity.
  destruct (Z.eqb_spec z 0) as [->|]; [|reflexivity].
  apply Z.ltb_lt in Hlt. lia.
Qed.

Lemma bound_fires_gt (bound : option number) len n :
  bound = Some n -> length_gt len n = true ->
  number_truthy n = true ->
  bound_fires length_gt bound len = Some n.
Proof. intros -> Hgt Ht. unfold bound_fires. now rewrite Hgt, Ht. Qed.

Lemma bound_fires_lt_None (bound : option number) len :
  (forall m, bound = Some m -> length_lt len m = false) ->
  bound_fires length_lt bound len = None.
Proof.
  intros H. destruct bound as [m|]; [|reflexivity].
  unfold bound_fires. rewrite (H m eq_refl). now rewrite andb_false_r.
Qed.

(** Past the bounds checks, with no foreign throw, [parse] ends on what
    was collected. *)
Lemma ArraySchema_parse_all (this : ArraySchema St E T) items st os st1 :
  bound_fires length_lt (minItems this) (length items) = None ->
  bound_fires length_gt (maxItems this) (length items) = None ->
  item_outcomes (itemSchema this) items st = (os, st1) ->
  only_validation os ->
  ArraySchema_parse this (JsArray items) st
  = (match collected 0 os with
     | [] => Return (returned os)
     | _ :: _ => ThrowValidation (mkValidationError (collected 0 os))
     end, st1).
Proof.
  intros Hmin Hmax Hrun Hos. unfold ArraySchema_parse. rewrite Hmin, Hmax.
  rewrite (parse_items_all _ _ 0 [] [] _ _ _ Hrun Hos). simpl.
  now destruct (collected 0 os).
Qed.

(** The loop itself never throws a [ValidationError]. *)
Lemma parse_items_not_validation item items : forall i elems found st err st',
  parse_items item i items elems found st <> (ThrowValidation err, st').
Proof.
  induction items as [|y items IH]; intros i elems found st err st'; simpl;
    [discriminate|].
  destruct (parse item y st) as [[v|err1|e1] s1]; auto; discriminate.
Qed.
End ParseItems.

(** ** [BooleanSchema] and [DateSchema] *)

(** C6: the boolean schema returns its input exactly when the input's
    runtime type is boolean, and the value returned is the input itself;
    on every other input it throws a [ValidationError] with the single
    issue [invalidType], empty path, expected ["boolean"], actual the
    [typeof] tag of the input. *)
Theorem C6_boolean_parse (E : Type) (obj : JsValue) :
  ((exists b, @BooleanSchema_parse E obj = Return b) <-> typeof obj = "boolean")
  /\ (forall b, @BooleanSchema_parse E obj = Return b -> obj = JsBoolean b)
  /\ (typeof obj <> "boolean" ->
      @BooleanSchema_parse E obj
      = ThrowValidation
          (mkValidationError [mkIssue invalidType [] "boolean" (typeof obj)])).
Proof.
  repeat split.
  - intros [b Hb]. destruct obj; simpl in *; congruence.
  - intros Ht. destruct obj; simpl in *; try discriminate. eauto.
  - intros b Hb. destruct obj; simpl in *; congruence.
  - intros Ht. destruct obj; simpl in *; congruence.
Qed.

Lemma C6_boolean_parse_witness :
  @BooleanSchema_parse Empty_set (JsString "x")
  = ThrowValidation
      (mkValidationError [mkIssue invalidType [] "boolean" "string"])
  /\ @BooleanSchema_parse Empty_set (JsBoolean true) = Return true.
Proof.
  split.
  - apply (proj2 (proj2 (C6_boolean_parse Empty_set (JsString "x")))).
    vm_compute. discriminate.
  - reflexivity.
Defined.

(** C7: the date schema returns a date input itself; for a string or a
    number it builds a date and returns it exactly when that date is not
    the invalid date; in every remaining case (other types, and strings
    or numbers that give the invalid date) it throws a [ValidationError]
    with the single issue [invalidType], expected ["date"], actual the
    [typeof] tag of the input. *)
Theorem C7_date_parse (Date_parse : string -> option Z) (E : Type)
        (obj : JsValue) :
  let failure : Outcome E Date :=
    ThrowValidation
      (mkValidationError [mkIssue invalidType [] "date" (typeof obj)]) in
  (forall d, obj = JsDate d -> @DateSchema_parse Date_parse E obj = Return d)
  /\ ((exists s, obj = JsString s) \/ (exists n, obj = JsNumber n) ->
      (not_Invalid_Date (new_Date Date_parse obj) = true ->
       @DateSchema_parse Date_parse E obj = Return (new_Date Date_parse obj))
      /\ (not_Invalid_Date (new_Date Date_parse obj) = false ->
          @DateSchema_parse Date_parse E obj = failure))
  /\ ((forall d, obj <> JsDate d) ->
      typeof obj <> "string" -> typeof obj <> "number" ->
      @DateSchema_parse Date_parse E obj = failure).
Proof.
  intros failure. split; [|split].
  - now intros d ->.
  - intros [[s ->]|[n ->]]; split; simpl; intros ->; reflexivity.
  - intros Hd Hs Hn. destruct obj; simpl in *; try reflexivity; try congruence.
    now destruct (Hd d).
Qed.

Lemma C7_date_parse_witness :
  let Date_parse := fun s : string =>
    if String.eqb s "1970-01-01T00:00:00.000Z" then Some 0%Z else None in
  @DateSchema_parse Date_parse Empty_set (JsDate (mkDate (Some 5%Z)))
  = Return (mkDate (Some 5%Z))
  /\ @DateSchema_parse Date_parse Empty_set (JsString "1970-01-01T00:00:00.000Z")
     = Return (mkDate (Some 0%Z))
  /\ @DateSchema_parse Date_parse Empty_set (JsString "hello")
     = ThrowValidation
         (mkValidationError [mkIssue invalidType [] "date" "string"])
  /\ @DateSchema_parse Date_parse Empty_set JsNull
     = ThrowValidation
         (mkValidationError [mkIssue invalidType [] "date" "object"]).
Proof.
  intros Date_parse. split; [|split; [|split]].
  - apply (proj1 (C7_date_parse Date_parse Empty_set _)). reflexivity.
  - apply (proj1 (proj2 (C7_date_parse Date_parse Empty_set
                           (JsString "1970-01-01T00:00:00.000Z")))).
    + left. eexists. reflexivity.
    + reflexivity.
  - apply (proj1 (proj2 (C7_date_parse Date_parse Empty_set (JsString "hello")))).
    + left. eexists. reflexivity.
    + reflexivity.
  - apply (proj2 (proj2 (C7_date_parse Date_parse Empty_set JsNull)));
      intros; discriminate.
Defined.

Example date_of_timestamp (Date_parse : string -> option Z) :
  @DateSchema_parse Date_parse Empty_set (JsNumber (Num_int 1700000000000))
  = Return (mkDate (Some 1700000000000%Z)).
Proof. reflexivity. Qed.

Example date_of_object (Date_parse : string -> option Z) :
  @DateSchema_parse Date_parse Empty_set (JsObject [])
  = ThrowValidation (mkValidationError [mkIssue invalidType [] "date" "object"]).
Proof. reflexivity. Qed.

Example date_of_NaN (Date_parse : string -> option Z) :
  @DateSchema_parse Date_parse Empty_set (JsNumber Num_NaN)
  = ThrowValidation (mkValidationError [mkIssue invalidType [] "date" "number"]).
Proof. reflexivity. Qed.

(** ** [ArraySchema.parse] *)

Section ArrayParse.
Context {St E T : Type}.
Implicit Types (this : ArraySchema St E T) (os : list (Outcome E T)).

Lemma item_outcomes_length (item : Schema St E T) items : forall st os st1,
  item_outcomes item items st = (os, st1) -> length os = length items.
Proof.
  induction items as [|x items IH]; intros st os st1 H; simpl in H.
  - now injection H as <- <-.
  - destruct (parse item x st) as [o st']. 
    destruct (item_outcomes item items st') as [os' st''] eqn:Hrest.
    injection H as <- <-. simpl. f_equal. eauto.
Qed.

(** Each outcome is what the item schema did on the item of the same
    index. *)
Lemma item_outcomes_lookup (item : Schema St E T) items : forall st os st1 i o,
  item_outcomes item items st = (os, st1) -> os !! i = Some o ->
  exists x s, items !! i = Some x /\ fst (parse item x s) = o.
Proof.
  induction items as [|x items IH]; intros st os st1 i o H Hi; simpl in H.
  - injection H as <- <-. discriminate.
  - destruct (parse item x st) as [o' st'] eqn:Hx.
    destruct (item_outcomes item items st') as [os' st''] eqn:Hrest.
    injection H as <- <-. destruct i as [|i]; simpl in Hi.
    + injection Hi as <-. exists x, st. now rewrite Hx.
    + eapply IH; eauto.
Qed.

(** The collected issues are exactly the issues of the validation
    errors, each with the decimal index of its item in front of its
    path. *)
Lemma elem_of_collected os : forall k (x : Issue),
  x ∈ collected k os <->
  exists i err y,
    os !! i = Some (ThrowValidation err) /\ y ∈ issues err /\
    x = mkIssue (issue_kind y) (nat_toString (k + i) :: issue_path y)
                (issue_expected y) (issue_actual y).
Proof.
  induction os as [|o os IH]; intros k x; simpl.
  - split; [intros H; inversion H | intros (i & err & y & H & _); discriminate].
  - assert (Hshift : (exists i err y,
               os !! i = Some (ThrowValidation err) /\ y ∈ issues err /\
               x = mkIssue (issue_kind y) (nat_toString (S k + i) :: issue_path y)
                           (issue_expected y) (issue_actual y)) ->
             exists i err y,
               (o :: os) !! i = Some (ThrowValidation err) /\ y ∈ issues err /\
               x = mkIssue (issue_kind y) (nat_toString (k + i) :: issue_path y)
                           (issue_expected y) (issue_actual y)).
    { intros (i & err & y & Hi & Hy & ->). exists (S i), err, y.
      repeat split; auto. now rewrite Nat.add_succ_r. }
    assert (Hback : forall i err y,
               (o :: os) !! S i = Some (ThrowValidation err) -> y ∈ issues err ->
               x = mkIssue (issue_kind y) (nat_toString (k + S i) :: issue_path y)
                           (issue_expected y) (issue_actual y) ->
               x ∈ collected (S k) os).
    { intros i err y Hi Hy ->. apply IH. exists i, err, y.
      repeat split; auto. now rewrite Nat.add_succ_r. }
    destruct o as [v|err0|e].
    + split; [intros H; apply Hshift, IH, H|].
      intros ([|i] & err & y & Hi & Hy & Hx); [discriminate|eauto].
    + rewrite elem_of_app. split.
      * intros [H|H]; [|apply Hshift, IH, H].
        unfold withPrefix in H. apply list_elem_of_fmap in H as [y [-> Hy]].
        exists 0, err0, y. now rewrite Nat.add_0_r.
      * intros ([|i] & err & y & Hi & Hy & Hx); [|right; eauto].
        left. injection Hi as <-. subst x. rewrite Nat.add_0_r.
        unfold withPrefix. apply list_elem_of_fmap. eauto.
    + split; [intros H; apply Hshift, IH, H|].
      intros ([|i] & err & y & Hi & Hy & Hx); [discriminate|eauto].
Qed.

(** C1: on an array input that passes both bounds checks, and whose
    items make the item schema either return or throw a
    [ValidationError], [parse] gives every item to the item schema (the
    outcome at an index is what the item schema did on the item there);
    the issues of every such error are collected with the decimal index of the
    item in front of their path; if any were collected, [parse] throws a
    [ValidationError] holding exactly these, in item order, and otherwise
    returns the parsed items in the order of the input. *)
Theorem C1_array_parse_collects this (items : list JsValue) (st st1 : St) os :
  bound_fires length_lt (minItems this) (length items) = None ->
  bound_fires length_gt (maxItems this) (length items) = None ->
  item_outcomes (itemSchema this) items st = (os, st1) ->
  only_validation os ->
  ArraySchema_parse this (JsArray items) st
  = (match collected 0 os with
     | [] => Return (returned os)
     | _ :: _ => ThrowValidation (mkValidationError (collected 0 os))
     end, st1)
  /\ length os = length items
  /\ (forall i o, os !! i = Some o ->
                  exists x s, items !! i = Some x
                              /\ fst (parse (itemSchema this) x s) = o)
  /\ (forall x : Issue,
        x ∈ collected 0 os <->
        exists i err y,
          os !! i = Some (ThrowValidation err) /\ y ∈ issues err /\
          x = mkIssue (issue_kind y) (nat_toString i :: issue_path y)
                      (issue_expected y) (issue_actual y)).
Proof.
  intros Hmin Hmax Hrun Hos. split; [|split; [|split]].
  - now apply ArraySchema_parse_all.
  - eapply item_outcomes_length; eauto.
  - intros i o Hi. eapply item_outcomes_lookup; eauto.
  - intros x. apply (elem_of_collected os 0 x).
Qed.

(** C8: when the item schema throws something that is not a
    [ValidationError] on an item, [parse] throws that same value, and
    the state is the one the throwing call left: issues already collected
    are dropped and no later item is given to the item schema. *)
Theorem C8_array_parse_rethrows this (pre post : list JsValue) (x : JsValue)
        (st st1 st2 : St) os (e : E) :
  bound_fires length_lt (minItems this) (length (pre ++ x :: post)) = None ->
  bound_fires length_gt (maxItems this) (length (pre ++ x :: post)) = None ->
  item_outcomes (itemSchema this) pre st = (os, st1) ->
  only_validation os ->
  parse (itemSchema this) x st1 = (Throw e, st2) ->
  ArraySchema_parse this (JsArray (pre ++ x :: post)) st = (Throw e, st2).
Proof.
  intros Hmin Hmax Hrun Hos Hx. unfold ArraySchema_parse.
  rewrite Hmin, Hmax.
  rewrite (parse_items_app _ pre (x :: post) 0 [] [] _ _ _ Hrun Hos).
  simpl. now rewrite Hx.
Qed.
End ArrayParse.

Lemma C1_array_parse_collects_witness :
  ArraySchema_parse booleans_2_4
    (JsArray [JsBoolean true; JsNumber (Num_int 1); JsBoolean false]) tt
  = (ThrowValidation
       (mkValidationError [mkIssue invalidType ["1"] "boolean" "number"]), tt).
Proof.
  refine (proj1 (C1_array_parse_collects booleans_2_4
            [JsBoolean true; JsNumber (Num_int 1); JsBoolean false] tt tt
            [Return true;
             ThrowValidation
               (mkValidationError [mkIssue invalidType [] "boolean" "number"]);
             Return false] _ _ _ _)).
  - reflexivity.
  - reflexivity.
  - reflexivity.
  - intros e. destruct e.
Defined.

Lemma C8_array_parse_rethrows_witness :
  ArraySchema_parse (mkArraySchema recording None None)
    (JsArray [JsBoolean true; JsNumber (Num_int 1); JsString "boom";
              JsBoolean false; JsNumber (Num_int 2)]) []
  = (Throw "boom",
     [JsBoolean true; JsNumber (Num_int 1); JsString "boom"]).
Proof.
  refine (C8_array_parse_rethrows (mkArraySchema recording None None)
            [JsBoolean true; JsNumber (Num_int 1)]
            [JsBoolean false; JsNumber (Num_int 2)] (JsString "boom")
            [] [JsBoolean true; JsNumber (Num_int 1)] _
            [Return true;
             ThrowValidation
               (mkValidationError [mkIssue invalidType [] "boolean" "number"])]
            "boom" _ _ _ _ _).
  - reflexivity.
  - reflexivity.
  - reflexivity.
  - intros e He. apply list_elem_of_In in He. simpl in He.
    destruct He as [He|[He|[]]]; discriminate.
  - reflexivity.
Defined.

(** ** The bounds checks *)

Section Bounds.
Context {St E T : Type}.
Implicit Types (this : ArraySchema St E T) (item : Schema St E T).

(** C2, as the code has it: when [minItems] is set and the input is
    shorter, [parse] throws the single issue [tooShort] with empty path,
    expected the text of [minItems] and actual the text of the length,
    and the state of the item schema is untouched; when [maxItems] is set
    and not zero, the input is longer, and the [minItems] check has not
    fired, [parse] throws the single issue [tooLong] likewise.  The text
    of a whole bound is its decimal string for a bound of magnitude at
    most 2^53, which is what [number_exact] asks. *)
Theorem C2_array_bounds_short_circuit this (items : list JsValue) (st : St) :
  (forall n,
      minItems this = Some n -> number_exact n ->
      length_lt (length items) n = true ->
      ArraySchema_parse this (JsArray items) st
      = (ThrowValidation
           (mkValidationError
              [mkIssue tooShort [] (number_toString n)
                       (nat_toString (length items))]), st))
  /\ (forall n,
         maxItems this = Some n -> number_exact n ->
         number_truthy n = true ->
         length_gt (length items) n = true ->
         (forall m, minItems this = Some m ->
                    length_lt (length items) m = false) ->
         ArraySchema_parse this (JsArray items) st
         = (ThrowValidation
              (mkValidationError
                 [mkIssue tooLong [] (number_toString n)
                          (nat_toString (length items))]), st)).
Proof.
  split.
  - intros n Hmin _ Hlt. unfold ArraySchema_parse.
    now rewrite (bound_fires_lt _ _ _ Hmin Hlt).
  - intros n Hmax _ Ht Hgt Hmin. unfold ArraySchema_parse.
    rewrite (bound_fires_lt_None _ _ Hmin).
    now rewrite (bound_fires_gt _ _ _ Hmax Hgt Ht).
Qed.

(** C9: a bound of zero is falsy, so its check is skipped: the schema
    parses as the one without that bound does.  With [maxItems] zero no
    issue [tooLong] of the array's own (one with empty path) is ever
    thrown, and an array of any length whose items all parse is
    returned, after [max(0)] as after [length(0)]. *)
Theorem C9_zero_bound_is_skipped item (min max : option number)
        (obj : JsValue) (st : St) :
  ArraySchema_parse (mkArraySchema item (Some (Num_int 0)) max) obj st
  = ArraySchema_parse (mkArraySchema item None max) obj st
  /\ ArraySchema_parse (mkArraySchema item min (Some (Num_int 0))) obj st
     = ArraySchema_parse (mkArraySchema item min None) obj st
  /\ (forall err st',
         ArraySchema_parse (mkArraySchema item min (Some (Num_int 0))) obj st
         = (ThrowValidation err, st') ->
         forall x, x ∈ issues err -> issue_kind x = tooLong ->
                   issue_path x <> [])
  /\ (forall items os st1,
         obj = JsArray items ->
         item_outcomes item items st = (os, st1) ->
         only_validation os -> collected 0 os = [] ->
         ArraySchema_parse (ArraySchema_max (array item) (Num_int 0)) obj st
         = (Return (returned os), st1)
         /\ ArraySchema_parse (ArraySchema_length (array item) (Num_int 0)) obj st
            = (Return (returned os), st1)).
Proof.
  split; [|split; [|split]].
  - destruct obj; reflexivity.
  - destruct obj; reflexivity.
  - intros err st' H x Hx Hk. destruct obj; simpl in H;
      try (injection H as <- <-; apply list_elem_of_singleton in Hx;
           subst x; discriminate).
    destruct (bound_fires length_lt min (length items)).
    + injection H as <- <-. apply list_elem_of_singleton in Hx.
      subst x. discriminate.
    + destruct (parse_items item 0 items [] [] st)
        as [[[elems found]|err'|e] st''] eqn:Hrun.
      * destruct found as [|f found]; [discriminate|].
        injection H as <- <-.
        destruct (parse_items_paths _ _ _ _ _ _ _ _ _ Hrun x Hx) as [Hin|Hp];
          [inversion Hin|exact Hp].
      * now destruct (parse_items_not_validation _ _ _ _ _ _ _ _ Hrun).
      * discriminate.
  - intros items os st1 -> Hrun Hos Hnone.
    split.
    + rewrite (ArraySchema_parse_all (ArraySchema_max (array item) (Num_int 0))
                 items st os st1 eq_refl eq_refl Hrun Hos).
      now rewrite Hnone.
    + rewrite (ArraySchema_parse_all (ArraySchema_length (array item) (Num_int 0))
                 items st os st1 eq_refl eq_refl Hrun Hos).
      now rewrite Hnone.
Qed.
End Bounds.

Lemma C2_array_bounds_short_circuit_witness :
  ArraySchema_parse
    (ArraySchema_max (ArraySchema_min (array recording) (Num_int 2)) (Num_int 4))
    (JsArray [JsNumber (Num_int 7)]) []
  = (ThrowValidation (mkValidationError [mkIssue tooShort [] "2" "1"]), [])
  /\ ArraySchema_parse
       (ArraySchema_max (ArraySchema_min (array recording) (Num_int 2)) (Num_int 4))
       (JsArray (map JsBoolean [true; false; true; false; true])) []
     = (ThrowValidation (mkValidationError [mkIssue tooLong [] "4" "5"]), []).
Proof.
  split.
  - apply (proj1 (C2_array_bounds_short_circuit
                    (ArraySchema_max (ArraySchema_min (array recording) (Num_int 2))
                                     (Num_int 4))
                    [JsNumber (Num_int 7)] []) (Num_int 2));
      [reflexivity|unfold number_exact, exact_integer; simpl; lia|reflexivity].
  - apply (proj2 (C2_array_bounds_short_circuit
                    (ArraySchema_max (ArraySchema_min (array recording) (Num_int 2))
                                     (Num_int 4))
                    (map JsBoolean [true; false; true; false; true]) [])
                 (Num_int 4));
      [reflexivity|unfold number_exact, exact_integer; simpl; lia
      |reflexivity|reflexivity|].
    intros m Hm. injection Hm as <-. reflexivity.
Defined.

(** C2 as stated fails where both bounds are violated: the schema
    [array(boolean()).min(5).max(2)] has [maxItems] set, three items are
    more than two, and yet the issue thrown is [tooShort]. *)
Lemma C2_max_check_counterexample :
  maxItems booleans_5_2 = Some (Num_int 2)
  /\ length_gt (length [JsBoolean true; JsBoolean true; JsBoolean true])
               (Num_int 2) = true
  /\ ArraySchema_parse booleans_5_2
       (JsArray [JsBoolean true; JsBoolean true; JsBoolean true]) tt
     = (ThrowValidation (mkValidationError [mkIssue tooShort [] "5" "3"]), tt).
Proof. split; [|split]; reflexivity. Qed.

Lemma C9_zero_bound_is_skipped_witness :
  ArraySchema_parse (ArraySchema_max (array (@boolean unit Empty_set)) (Num_int 0))
    (JsArray [JsBoolean true; JsBoolean false; JsBoolean true]) tt
  = (Return [true; false; true], tt)
  /\ ArraySchema_parse
       (ArraySchema_length (array (@boolean unit Empty_set)) (Num_int 0))
       (JsArray [JsBoolean true; JsBoolean false; JsBoolean true]) tt
     = (Return [true; false; true], tt).
Proof.
  refine (proj2 (proj2 (proj2
            (C9_zero_bound_is_skipped (@boolean unit Empty_set) None None
               (JsArray [JsBoolean true; JsBoolean false; JsBoolean true]) tt)))
            [JsBoolean true; JsBoolean false; JsBoolean true]
            [Return true; Return false; Return true] tt _ _ _ _).
  - reflexivity.
  - reflexivity.
  - intros e. destruct e.
  - reflexivity.
Defined.

(** ** The modifiers *)

Section Modifiers.
Context {St E T : Type}.
Implicit Types (this o : ArraySchema St E T) (h : Store St E T).

(** A modifier called through a reference allocates: the reference it
    returns is new, it holds the object the modifier builds, and every
    object already in the store, the receiver included, is as before. *)
Lemma call_modifier_fresh (f : ArraySchema St E T -> number -> ArraySchema St E T)
      h (r : nat) o (n : number) :
  h !! r = Some o ->
  exists h' r',
    call_modifier f h r n = Some (h', r')
    /\ h !! r' = None /\ r' <> r
    /\ h' !! r' = Some (f o n)
    /\ (forall r0 o0, h !! r0 = Some o0 -> h' !! r0 = Some o0).
Proof.
  intros Hr. exists (h ++ [f o n]), (length h).
  unfold call_modifier, new. rewrite Hr. simpl.
  split; [reflexivity|]. split; [|split; [|split]].
  - apply lookup_ge_None. lia.
  - apply lookup_lt_Some in Hr. lia.
  - rewrite lookup_app_r by lia. now rewrite Nat.sub_diag.
  - intros r0 o0 H0. rewrite lookup_app_l; [exact H0|].
    now apply lookup_lt_Some in H0.
Qed.

(** C10: [array(s).length(n)] builds a schema with both bounds [n] and
    item schema [s], the very fields [array(s).min(n).max(n)] ends with,
    so the two parse and document alike on every input; and [min], [max]
    and [length], called on an object of the store, each return a
    reference that was not in the store and leave every object there, the
    receiver among them, with the fields it had. *)
Theorem C10_length_is_min_then_max (s : Schema St E T) (n : number) :
  ArraySchema_length (array s) n = mkArraySchema s (Some n) (Some n)
  /\ ArraySchema_max (ArraySchema_min (array s) n) n
     = ArraySchema_length (array s) n
  /\ (forall obj st,
         ArraySchema_parse (ArraySchema_length (array s) n) obj st
         = ArraySchema_parse (ArraySchema_max (ArraySchema_min (array s) n) n)
                             obj st)
  /\ ArraySchema_documentation (ArraySchema_length (array s) n)
     = ArraySchema_documentation (ArraySchema_max (ArraySchema_min (array s) n) n)
  /\ (forall h r o k,
         h !! r = Some o ->
         forall f, f = ArraySchema_min \/ f = ArraySchema_max
                   \/ f = ArraySchema_length ->
         exists h' r',
           call_modifier f h r k = Some (h', r')
           /\ h !! r' = None /\ r' <> r
           /\ h' !! r' = Some (f o k)
           /\ h' !! r = Some o
           /\ (forall r0 o0, h !! r0 = Some o0 -> h' !! r0 = Some o0))
  /\ (forall h,
         let (h1, a) := new h (array s) in
         exists h2 l h3 m h4 x,
           call_modifier ArraySchema_length h1 a n = Some (h2, l)
           /\ call_modifier ArraySchema_min h1 a n = Some (h3, m)
           /\ call_modifier ArraySchema_max h3 m n = Some (h4, x)
           /\ h2 !! l = h4 !! x
           /\ h2 !! a = Some (array s) /\ h4 !! a = Some (array s)
           /\ forall obj st, call_parse h2 l obj st = call_parse h4 x obj st).
Proof.
  split; [reflexivity|]. split; [reflexivity|]. split; [reflexivity|].
  split; [reflexivity|]. split.
  - intros h r o k Hr f _.
    destruct (call_modifier_fresh f h r o k Hr)
      as (h' & r' & Hc & Hnew & Hne & Hr' & Hold).
    exists h', r'. repeat split; auto.
  - intros h. simpl.
    assert (Ha : (h ++ [array s]) !! length h = Some (array s)).
    { rewrite lookup_app_r by lia. now rewrite Nat.sub_diag. }
    destruct (call_modifier_fresh ArraySchema_length _ _ _ n Ha)
      as (h2 & l & Hl & _ & _ & Hl' & Hold2).
    destruct (call_modifier_fresh ArraySchema_min _ _ _ n Ha)
      as (h3 & m & Hm & _ & _ & Hm' & Hold3).
    destruct (call_modifier_fresh ArraySchema_max _ _ _ n Hm')
      as (h4 & x & Hx & _ & _ & Hx' & Hold4).
    exists h2, l, h3, m, h4, x.
    split; [exact Hl|]. split; [exact Hm|]. split; [exact Hx|].
    split; [now rewrite Hl', Hx'|]. split; [auto|]. split; [auto|].
    intros obj st. unfold call_parse. now rewrite Hl', Hx'.
Qed.
End Modifiers.

Lemma C10_length_is_min_then_max_witness :
  exists h' r',
    call_modifier ArraySchema_length [array (@boolean unit Empty_set)] 0
                  (Num_int 3) = Some (h', r')
    /\ [array (@boolean unit Empty_set)] !! r' = None /\ r' <> 0
    /\ h' !! r' = Some (ArraySchema_length (array boolean) (Num_int 3))
    /\ h' !! 0 = Some (array boolean)
    /\ (forall r0 o0, [array (@boolean unit Empty_set)] !! r0 = Some o0 ->
                      h' !! r0 = Some o0).
Proof.
  refine (proj1 (proj2 (proj2 (proj2 (proj2
            (C10_length_is_min_then_max (@boolean unit Empty_set) (Num_int 3))))))
            [array boolean] 0 (array boolean) (Num_int 3) _
            ArraySchema_length _).
  - reflexivity.
  - right. right. reflexivity.
Defined.

(** ** The assertions of [path.test.ts] *)

Example test_Path_Invalid :
  thrown "abc/test"
  = Some "API path abc/test is invalid: Must start with '/'."
  /\ thrown "/abc/hello_world"
     = Some "API path /abc/hello_world is invalid: Segment hello_world does not match regex /^(:?[a-z0-9-]+\??)$/."
  /\ thrown "/:id?/test"
     = Some "API path /:id?/test is invalid: Optional segment cannot be followed by non-optional segment."
  /\ thrown "/:id?/:test"
     = Some "API path /:id?/:test is invalid: Optional segment cannot be followed by non-optional segment.".
Proof. repeat split. Qed.

Example test_Path_Simple :
  with_path "/abc/test"
    (fun p => (Path.toString p,
               map (Path.match_ p) ["/abc/test/def"; "/abc/test"; "/abc"; "abc/test"]))
  = Path.Ok ("/abc/test", [None; Some ∅; None; None]).
Proof. vm_compute. reflexivity. Qed.

Example test_Path_With_Parameter :
  with_path "/abc/:id"
    (fun p => (Path.toString p,
               map (Path.match_ p) ["/abc/test/def"; "/abc/test"; "/abc"]))
  = Path.Ok ("/abc/:id", [None; Some {[ "id" := "test" ]}; None]).
Proof. vm_compute. reflexivity. Qed.

Example test_Path_With_Prefix :
  with_prefixed "/abc-def/test" "/hello"
    (fun p => (Path.toString p,
               map (Path.match_ p) ["/abc-def/test"; "/hello/abc-def/test"; "/hello"]))
  = Path.Ok ("/hello/abc-def/test", [None; Some ∅; None]).
Proof. vm_compute. reflexivity. Qed.

Example test_Path_With_Prefix_And_Parameter :
  with_prefixed "/abc" "/:id"
    (fun p => (Path.toString p, map (Path.match_ p) ["/37/abc"; "/abc"]))
  = Path.Ok ("/:id/abc", [Some {[ "id" := "37" ]}; None]).
Proof. vm_compute. reflexivity. Qed.

Example test_Path_With_Optional_Segment :
  with_path "/abc/def?"
    (fun p => (Path.toString p,
               map (Path.match_ p) ["/abc"; "/abc/def"; "/"; "/abc/def/ghi"]))
  = Path.Ok ("/abc/def?", [Some ∅; Some ∅; None; None]).
Proof. vm_compute. reflexivity. Qed.

Example test_Path_With_Optional_Parameter :
  with_path "/abc/:id?"
    (fun p => (Path.toString p,
               map (Path.match_ p) ["/abc"; "/abc/def"; "/abc/def/ghi"]))
  = Path.Ok ("/abc/:id?", [Some ∅; Some {[ "id" := "def" ]}; None]).
Proof. vm_compute. reflexivity. Qed.

(** ** [Path]: splitting and printing *)

Lemma split_not_nil (s : string) : Path.split s <> [].
Proof.
  induction s as [|c s IH]; simpl; [discriminate|].
  destruct (Ascii.eqb c "/"); [discriminate|].
  now destruct (Path.split s).
Qed.

Lemma join_cons (p q : string) (rest : list string) :
  Path.join (p :: q :: rest) = p +:+ String "/"%char (Path.join (q :: rest)).
Proof. reflexivity. Qed.

Lemma join_String (c : ascii) (p : string) (rest : list string) :
  Path.join (String c p :: rest) = String c (Path.join (p :: rest)).
Proof. destruct rest; reflexivity. Qed.

(** Joining what was split gives the text back. *)
Lemma join_split (s : string) : Path.join (Path.split s) = s.
Proof.
  induction s as [|c s IH]; [reflexivity|]. simpl.
  destruct (Ascii.eqb_spec c "/") as [->|Hc].
  - destruct (Path.split s) as [|h tl] eqn:Hs; [now destruct (split_not_nil s)|].
    rewrite join_cons, IH. reflexivity.
  - destruct (Path.split s) as [|h tl] eqn:Hs; [now destruct (split_not_nil s)|].
    rewrite join_String. now rewrite IH.
Qed.

Lemma strip_question_append (s : string) : forall x o,
  Path.strip_question s = (x, o) -> x +:+ (if o then "?" else EmptyString) = s.
Proof.
  induction s as [|c r IH]; intros x o H; simpl in H.
  - now injection H as <- <-.
  - destruct r as [|c' r'].
    + destruct (Ascii.eqb_spec c "?") as [->|_]; now injection H as <- <-.
    + destruct (Path.strip_question (String c' r')) as [x' o'] eqn:Hr.
      injection H as <- <-. change (String c (x' +:+ (if o' then "?" else EmptyString))
                                    = String c (String c' r')).
      f_equal. now apply IH.
Qed.

Lemma after_char_Some (c : ascii) (s r : string) :
  Path.after_char c s = Some r -> s = String c r.
Proof.
  destruct s as [|c' s]; simpl; [discriminate|].
  destruct (Ascii.eqb_spec c' c) as [->|_]; [|discriminate].
  now intros [= ->].
Qed.

(** A compiled segment prints as the text it was compiled from. *)
Lemma segment_toString_compile (s : string) :
  Path.segment_toString (Path.compile s) = s.
Proof.
  unfold Path.compile. destruct (Path.after_char ":" s) as [r|] eqn:Hc.
  - apply after_char_Some in Hc as ->.
    destruct (Path.strip_question r) as [n o] eqn:Hr.
    unfold Path.segment_toString. simpl.
    change (String ":"%char (n +:+ (if o then "?" else EmptyString)) = String ":"%char r).
    f_equal. now apply strip_question_append.
  - destruct (Path.strip_question s) as [x o] eqn:Hs.
    unfold Path.segment_toString. simpl. now apply strip_question_append.
Qed.

Lemma map_segment_toString_compile (texts : list string) :
  map Path.segment_toString (map Path.compile texts) = texts.
Proof.
  induction texts as [|x texts IH]; [reflexivity|]. simpl.
  now rewrite segment_toString_compile, IH.
Qed.

(** C5: a pattern the constructor accepts is printed back exactly by
    [toString]. *)
Theorem C5_toString_round_trip (pattern : string) (p : Path.t) :
  Path.new pattern = Path.Ok p -> Path.toString p = pattern.
Proof.
  unfold Path.new, Path.parse_pattern, Path.validated.
  destruct (Path.after_char "/" pattern) as [rest|] eqn:Hs; [|discriminate].
  apply after_char_Some in Hs as ->.
  destruct (find _ (Path.split rest)); [discriminate|].
  destruct (Path.ordered false _); [|discriminate].
  intros [= <-]. unfold Path.toString. simpl.
  now rewrite map_segment_toString_compile, join_split.
Qed.

Lemma C5_toString_round_trip_witness :
  Path.toString abc_id = "/abc/:id?".
Proof. apply (C5_toString_round_trip "/abc/:id?" abc_id). reflexivity. Defined.

(** ** [Path]: the ordering of optional segments *)

Lemma ordered_locked (segs : list Path.Segment) (j : nat) (g : Path.Segment) :
  segs !! j = Some g -> Path.optional g = false ->
  Path.ordered true segs = false.
Proof.
  revert j. induction segs as [|a segs IH]; intros j Hj Hg; [discriminate|].
  simpl. destruct j as [|j]; simpl in Hj.
  - injection Hj as ->. now rewrite Hg.
  - destruct (Path.optional a); [eauto|reflexivity].
Qed.

(** The check refuses every sequence in which an optional segment comes
    before a non-optional one. *)
Lemma ordered_refuses (segs : list Path.Segment) : forall locked i j,
  optional_then_required segs i j -> Path.ordered locked segs = false.
Proof.
  induction segs as [|a segs IH]; intros locked i j (Hij & (gi & Hi & Hoi) & (gj & Hj & Hoj)).
  - discriminate.
  - destruct j as [|j]; [lia|]. simpl in Hj. simpl.
    destruct i as [|i]; simpl in Hi.
    + injection Hi as ->. rewrite Hoi. eapply ordered_locked; eauto.
    + destruct (Path.optional a).
      * apply (IH true i j). repeat split; eauto; lia.
      * destruct locked; [reflexivity|].
        apply (IH false i j). repeat split; eauto; lia.
Qed.

(** Conversely, what the check refuses has such a pair, once unlocked. *)
Lemma ordered_false_inv (segs : list Path.Segment) : forall locked,
  Path.ordered locked segs = false ->
  (locked = true /\ exists j g, segs !! j = Some g /\ Path.optional g = false)
  \/ exists i j, optional_then_required segs i j.
Proof.
  induction segs as [|a segs IH]; intros locked H; simpl in H; [discriminate|].
  destruct (Path.optional a) eqn:Ha.
  - right. destruct (IH true H) as [[_ (j & g & Hj & Hg)]|(i & j & Hij & Hi & Hj)].
    + exists 0, (S j). repeat split; [lia|exists a; auto|exists g; auto].
    + exists (S i), (S j). repeat split; [lia|exact Hi|exact Hj].
  - destruct locked.
    + left. split; [reflexivity|]. exists 0, a. auto.
    + destruct (IH false H) as [[Hl _]|(i & j & Hij & Hi & Hj)]; [discriminate|].
      right. exists (S i), (S j). repeat split; [lia|exact Hi|exact Hj].
Qed.

(** C4: a pattern that passes the grammar and has an optional segment
    before a non-optional one is refused by the constructor with the
    optional-ordering error, which arises in no other way and whose
    message is fixed but for the pattern it names; so are [/:id?/test] and [/:id?/:test]; and [withPrefix]
    refuses in the same way when the prefix segments followed by the
    path's own have such a pair. *)
Theorem C4_optional_order_enforced :
  (forall pattern segs i j,
      Path.parse_pattern pattern = Path.Ok segs ->
      optional_then_required segs i j ->
      Path.new pattern = Path.Fatal (Path.OptionalOrder pattern))
  /\ (forall pattern culprit,
         Path.new pattern = Path.Fatal (Path.OptionalOrder culprit) ->
         culprit = pattern
         /\ exists segs i j, Path.parse_pattern pattern = Path.Ok segs
                             /\ optional_then_required segs i j)
  /\ (forall pattern,
         Path.message (Path.OptionalOrder pattern)
         = "API path " +:+ pattern
           +:+ " is invalid: Optional segment cannot be followed by non-optional segment.")
  /\ Path.new "/:id?/test" = Path.Fatal (Path.OptionalOrder "/:id?/test")
  /\ Path.new "/:id?/:test" = Path.Fatal (Path.OptionalOrder "/:id?/:test")
  /\ (forall this prefix pre i j,
         Path.parse_pattern prefix = Path.Ok pre ->
         optional_then_required (pre ++ Path.segments this) i j ->
         Path.withPrefix this prefix
         = Path.Fatal (Path.OptionalOrder
                         (Path.toString (Path.mkPath (pre ++ Path.segments this)))))
  /\ (forall this prefix q,
         Path.withPrefix this prefix = Path.Ok q ->
         (exists pre, Path.parse_pattern prefix = Path.Ok pre
                      /\ Path.segments q = pre ++ Path.segments this)
         /\ forall i j, ~ optional_then_required (Path.segments q) i j).
Proof.
  split; [|split; [|split; [|split; [|split; [|split]]]]].
  - intros pattern segs i j Hp Hv. unfold Path.new, Path.validated.
    now rewrite Hp, (ordered_refuses segs false i j Hv).
  - intros pattern culprit. unfold Path.new, Path.validated.
    destruct (Path.parse_pattern pattern) as [segs|e] eqn:Hp.
    + destruct (Path.ordered false segs) eqn:Ho; [discriminate|].
      intros [= <-]. split; [reflexivity|].
      destruct (ordered_false_inv segs false Ho) as [[Hl _]|(i & j & Hv)];
        [discriminate|eauto].
    + intros [= ->]. exfalso. revert Hp. unfold Path.parse_pattern.
      destruct (Path.after_char "/" pattern); [|discriminate].
      destruct (find _ _); discriminate.
  - reflexivity.
  - reflexivity.
  - reflexivity.
  - intros this prefix pre i j Hp Hv. unfold Path.withPrefix, Path.validated.
    rewrite Hp. simpl. now rewrite (ordered_refuses _ false i j Hv).
  - intros this prefix q. unfold Path.withPrefix, Path.validated.
    destruct (Path.parse_pattern prefix) as [pre|e]; [|discriminate]. simpl.
    destruct (Path.ordered false (pre ++ Path.segments this)) eqn:Ho;
      [|discriminate].
    intros [= <-]. split; [exists pre; auto|].
    intros i j Hv. simpl in Hv.
    rewrite (ordered_refuses _ false i j Hv) in Ho. discriminate.
Qed.

Lemma C4_optional_order_enforced_witness :
  Path.new "/a/:b?/c?/:d" = Path.Fatal (Path.OptionalOrder "/a/:b?/c?/:d")
  /\ Path.withPrefix (Path.mkPath [Path.mkSegment (Path.Literal "abc") false])
                     "/:id?"
     = Path.Fatal (Path.OptionalOrder "/:id?/abc").
Proof.
  split.
  - refine (proj1 C4_optional_order_enforced "/a/:b?/c?/:d"
              [Path.mkSegment (Path.Literal "a") false;
               Path.mkSegment (Path.Param "b") true;
               Path.mkSegment (Path.Literal "c") true;
               Path.mkSegment (Path.Param "d") false] 1 3 _ _).
    + reflexivity.
    + split; [lia|]. split; eexists; split; reflexivity.
  - refine (proj1 (proj2 (proj2 (proj2 (proj2 (proj2 C4_optional_order_enforced)))))
              (Path.mkPath [Path.mkSegment (Path.Literal "abc") false])
              "/:id?" [Path.mkSegment (Path.Param "id") true] 0 1 _ _).
    + reflexivity.
    + split; [lia|]. split; eexists; split; reflexivity.
Defined.

(** ** [Path.match] *)

(** What a successful scan leaves in the mapping: the entries it started
    with, and one entry for each parameter it reached. *)
Lemma scan_params (segs : list Path.Segment) :
  forall (cand : list string) (acc m : gmap string string),
  Path.scan segs cand acc = Some m ->
  (forall n v, m !! n = Some v ->
               acc !! n = Some v \/ exists i, reaches segs cand i n v)
  /\ (forall n, is_Some (acc !! n) -> is_Some (m !! n))
  /\ (forall i n v, reaches segs cand i n v -> is_Some (m !! n))
  /\ length cand <= length segs.
Proof.
  induction segs as [|g segs IH]; intros cand acc m H.
  - destruct cand; simpl in H; [|discriminate]. injection H as <-.
    repeat split; auto.
    intros i n v (g & Hg & _). discriminate.
  - destruct cand as [|c cand]; simpl in H.
    + destruct (Path.optional g); [|discriminate]. injection H as <-.
      repeat split; auto; [|simpl; lia].
      intros i n v (g' & _ & _ & Hc). discriminate.
    + destruct (Path.kind g) as [x|p] eqn:Hk.
      * destruct (String.eqb c x); [|discriminate].
        destruct (IH _ _ _ H) as (Hfrom & Hkeep & Hreach & Hlen).
        repeat split; [| exact Hkeep | | simpl; lia].
        -- intros n v Hm. destruct (Hfrom n v Hm) as [Ha|[i (g' & ? & ? & ?)]];
             [now left|right]. exists (S i), g'. auto.
        -- intros [|i] n v (g' & Hg & Hp & Hc); simpl in *.
           ++ injection Hg as <-. congruence.
           ++ apply (Hreach i n v). exists g'. auto.
      * destruct (IH _ _ _ H) as (Hfrom & Hkeep & Hreach & Hlen).
        repeat split; [| | | simpl; lia].
        -- intros n v Hm. destruct (Hfrom n v Hm) as [Ha|[i (g' & ? & ? & ?)]].
           ++ destruct (decide (p = n)) as [->|Hne].
              ** rewrite lookup_insert_eq in Ha. injection Ha as ->.
                 right. exists 0, g. auto.
              ** rewrite lookup_insert_ne in Ha by exact Hne. now left.
           ++ right. exists (S i), g'. auto.
        -- intros n Hn. apply Hkeep. destruct (decide (p = n)) as [->|Hne].
           ++ rewrite lookup_insert_eq. eauto.
           ++ now rewrite lookup_insert_ne.
        -- intros [|i] n v (g' & Hg & Hp & Hc); simpl in *.
           ++ injection Hg as <-. apply Hkeep.
              assert (p = n) as -> by congruence.
              rewrite lookup_insert_eq. eauto.
           ++ apply (Hreach i n v). exists g'. auto.
Qed.

(** C3: when [match] succeeds, the candidate starts with [/], it has
    no more segments than the pattern, and the mapping holds exactly the
    parameters the candidate's segments reach, each with a text captured
    at such a segment: a parameter that is not reached has no entry.  A
    candidate with more segments than the pattern never matches, whatever
    the path.  For the path [/abc/:id?], the candidate [/abc] matches
    with the empty mapping, [/abc/def] with [id] bound to [def], and
    [/abc/def/ghi] does not match. *)
Theorem C3_match_params_reached :
  (forall (p : Path.t) (candidate : string) (m : gmap string string),
      Path.match_ p candidate = Some m ->
      exists rest,
        candidate = String "/"%char rest
        /\ length (Path.split rest) <= length (Path.segments p)
        /\ (forall n, is_Some (m !! n) <->
                      exists i v, reaches (Path.segments p) (Path.split rest) i n v)
        /\ (forall n v, m !! n = Some v ->
                        exists i, reaches (Path.segments p) (Path.split rest) i n v)
        /\ (forall n, (forall i v, ~ reaches (Path.segments p) (Path.split rest) i n v) ->
                      m !! n = None))
  /\ (forall (p : Path.t) (rest : string),
         length (Path.segments p) < length (Path.split rest) ->
         Path.match_ p (String "/"%char rest) = None)
  /\ Path.new "/abc/:id?" = Path.Ok abc_id
  /\ Path.match_ abc_id "/abc" = Some ∅
  /\ Path.match_ abc_id "/abc/def" = Some {[ "id" := "def" ]}
  /\ Path.match_ abc_id "/abc/def/ghi" = None.
Proof.
  split; [|split; [|split; [|split; [|split]]]];
    [| |reflexivity|reflexivity|vm_compute; reflexivity|reflexivity].
  2: { intros p rest Hlen. unfold Path.match_. simpl.
       destruct (Path.scan (Path.segments p) (Path.split rest) ∅) as [m|] eqn:H;
         [|reflexivity].
       destruct (scan_params _ _ _ _ H) as (_ & _ & _ & Hle). lia. }
  intros p candidate m. unfold Path.match_.
  destruct (Path.after_char "/" candidate) as [rest|] eqn:Hs; [|discriminate].
  apply after_char_Some in Hs as ->. intros H.
  destruct (scan_params _ _ _ _ H) as (Hfrom & _ & Hreach & Hle).
  assert (Hsome : forall n v, m !! n = Some v ->
            exists i, reaches (Path.segments p) (Path.split rest) i n v).
  { intros n v Hm. destruct (Hfrom n v Hm) as [He|Hr]; [|exact Hr].
    rewrite lookup_empty in He. discriminate. }
  exists rest. split; [reflexivity|]. split; [exact Hle|]. split; [|split].
  - intros n. split.
    + intros [v Hv]. destruct (Hsome n v Hv) as [i Hi]. eauto.
    + intros (i & v & Hr). eauto.
  - exact Hsome.
  - intros n Hn. destruct (m !! n) as [v|] eqn:Hm; [|reflexivity].
    destruct (Hsome n v Hm) as [i Hi]. now destruct (Hn i v).
Qed.

Lemma C3_match_params_reached_witness :
  (exists rest,
      "/abc/def" = String "/"%char rest
      /\ length (Path.split rest) <= length (Path.segments abc_id)
      /\ (forall n, is_Some (({[ "id" := "def" ]} : gmap string string) !! n) <->
                    exists i v, reaches (Path.segments abc_id) (Path.split rest) i n v)
      /\ (forall n v, ({[ "id" := "def" ]} : gmap string string) !! n = Some v ->
                      exists i, reaches (Path.segments abc_id) (Path.split rest) i n v)
      /\ (forall n, (forall i v, ~ reaches (Path.segments abc_id) (Path.split rest) i n v) ->
                    ({[ "id" := "def" ]} : gmap string string) !! n = None))
  /\ Path.match_ abc_id "/abc/def/ghi/jkl" = None.
Proof.
  split.
  - apply (proj1 C3_match_params_reached abc_id "/abc/def" {[ "id" := "def" ]}).
    vm_compute. reflexivity.
  - apply (proj1 (proj2 C3_match_params_reached) abc_id "abc/def/ghi/jkl").
    simpl. lia.
Defined.

(* ================================================================= *)
(** * Part III: further properties of the code *)
(* ================================================================= *)

(** ** [ArraySchema.parse]: inputs, bounds and the shape of errors *)

Section ArrayFurther.
Context {St E T : Type}.
Implicit Types (this : ArraySchema St E T) (item : Schema St E T).

(** X1: on an input that is not an array, [parse] throws the single
    issue [invalidType] with empty path, expected ["array"] and actual
    the [typeof] tag of the input, whatever the bounds, and the item
    schema is not called. *)
Theorem array_parse_not_an_array this (obj : JsValue) (st : St) :
  (forall items, obj <> JsArray items) ->
  ArraySchema_parse this obj st
  = (ThrowValidation
       (mkValidationError [mkIssue invalidType [] "array" (typeof obj)]), st).
Proof.
  intros Hobj. destruct obj; try reflexivity. now destruct (Hobj items).
Qed.

Lemma bound_fires_None (cmp : nat -> number -> bool) (bound : option number)
      (len : nat) (n : number) :
  bound_fires cmp bound len = None -> bound = Some n ->
  number_truthy n = true -> cmp len n = false.
Proof.
  intros H -> Ht. unfold bound_fires in H. rewrite Ht in H. simpl in H.
  now destruct (cmp len n).
Qed.

Lemma length_lt_truthy (len : nat) (n : number) :
  length_lt len n = true -> number_truthy n = true.
Proof.
  destruct n as [|[]|z|fl x]; simpl; try discriminate; try reflexivity.
  intros H. apply Z.ltb_lt in H. destruct (Z.eqb_spec z 0); [lia|reflexivity].
Qed.

Lemma ArraySchema_parse_bounds_pass this items st (v : list T) st' :
  ArraySchema_parse this (JsArray items) st = (Return v, st') ->
  bound_fires length_lt (minItems this) (length items) = None
  /\ bound_fires length_gt (maxItems this) (length items) = None.
Proof.
  unfold ArraySchema_parse.
  destruct (bound_fires length_lt _ _); [discriminate|].
  destruct (bound_fires length_gt _ _); [discriminate|]. auto.
Qed.

(** X2: an array that [parse] returns from is within the bounds: it is
    not shorter than [minItems], and not longer than a [maxItems] that is
    truthy; for whole numbers, [minItems <= length], and
    [length <= maxItems] unless [maxItems] is zero. *)
Theorem array_parse_return_within_bounds this (items : list JsValue)
        (st st' : St) (elems : list T) :
  ArraySchema_parse this (JsArray items) st = (Return elems, st') ->
  (forall n, minItems this = Some n -> length_lt (length items) n = false)
  /\ (forall n, maxItems this = Some n -> number_truthy n = true ->
                length_gt (length items) n = false)
  /\ (forall m, minItems this = Some (Num_int m) ->
                (m <= Z.of_nat (length items))%Z)
  /\ (forall m, maxItems this = Some (Num_int m) -> m <> 0%Z ->
                (Z.of_nat (length items) <= m)%Z).
Proof.
  intros H. apply ArraySchema_parse_bounds_pass in H as [Hmin Hmax].
  assert (Hlt : forall n, minItems this = Some n ->
                          length_lt (length items) n = false).
  { intros n Hn. destruct (length_lt (length items) n) eqn:Hc; [|reflexivity].
    rewrite <- Hc.
    exact (bound_fires_None _ _ _ _ Hmin Hn (length_lt_truthy _ _ Hc)). }
  assert (Hgt : forall n, maxItems this = Some n -> number_truthy n = true ->
                          length_gt (length items) n = false).
  { intros n Hn Ht. exact (bound_fires_None _ _ _ _ Hmax Hn Ht). }
  split; [exact Hlt|]. split; [exact Hgt|]. split.
  - intros m Hm. specialize (Hlt _ Hm). simpl in Hlt.
    apply Z.ltb_ge in Hlt. exact Hlt.
  - intros m Hm Hz. assert (Ht : number_truthy (Num_int m) = true).
    { simpl. now destruct (Z.eqb_spec m 0). }
    specialize (Hgt _ Hm Ht). simpl in Hgt. apply Z.ltb_ge in Hgt. exact Hgt.
Qed.

(** What the loop adds to the issues stands under the index of an item
    it went over. *)
Lemma parse_items_index item items : forall i elems found st elems' found' st',
  parse_items item i items elems found st = (Return (elems', found'), st') ->
  forall x, x ∈ found' ->
    x ∈ found \/ exists k rest, i <= k < i + length items
                                /\ issue_path x = nat_toString k :: rest.
Proof.
  induction items as [|y items IH]; intros i elems found st elems' found' st' H x Hx.
  - simpl in H. injection H as <- <- <-. now left.
  - simpl in H. destruct (parse item y st) as [[v|err|e] st1] eqn:Hy.
    + destruct (IH _ _ _ _ _ _ _ H x Hx) as [Hin|(k & rest & Hk & Hp)];
        [now left|right]. exists k, rest. split; [simpl; lia|exact Hp].
    + destruct (IH _ _ _ _ _ _ _ H x Hx) as [Hin|(k & rest & Hk & Hp)].
      * apply elem_of_app in Hin as [Hin|Hin]; [now left|right].
        unfold withPrefix in Hin. apply list_elem_of_fmap in Hin as [z [-> _]].
        exists i, (issue_path z). split; [simpl; lia|reflexivity].
      * right. exists k, rest. split; [simpl; lia|exact Hp].
    + discriminate.
Qed.

(** X3: a [ValidationError] thrown by [parse] is never empty.  Either
    it holds one issue of the array's own, with empty path, and the item
    schema was not called; or the input is an array and every issue
    stands under the decimal index of one of its items. *)
Theorem array_parse_error_shape this (obj : JsValue) (st st' : St)
        (err : ValidationError) :
  ArraySchema_parse this obj st = (ThrowValidation err, st') ->
  issues err <> []
  /\ ((exists x, issues err = [x] /\ issue_path x = [] /\ st' = st)
      \/ (exists items, obj = JsArray items
                        /\ forall x, x ∈ issues err ->
                             exists k rest, k < length items
                               /\ issue_path x = nat_toString k :: rest)).
Proof.
  intros H.
  assert (Hown : forall x, err = mkValidationError [x] -> issue_path x = [] ->
                           st' = st ->
            issues err <> []
            /\ ((exists x, issues err = [x] /\ issue_path x = [] /\ st' = st)
                \/ (exists items, obj = JsArray items
                       /\ forall x, x ∈ issues err ->
                            exists k rest, k < length items
                              /\ issue_path x = nat_toString k :: rest))).
  { intros x -> Hp Hs. split; [discriminate|]. left. exists x. auto. }
  destruct obj; simpl in H;
    try (injection H as <- <-; eapply Hown; reflexivity).
  destruct (bound_fires length_lt _ _);
    [injection H as <- <-; eapply Hown; reflexivity|].
  destruct (bound_fires length_gt _ _);
    [injection H as <- <-; eapply Hown; reflexivity|].
  destruct (parse_items (itemSchema this) 0 items [] [] st)
    as [[[elems found]|err'|e] st''] eqn:Hrun.
  - destruct found as [|f found]; [discriminate|]. injection H as <- <-.
    split; [discriminate|]. right. exists items. split; [reflexivity|].
    intros x Hx.
    destruct (parse_items_index _ _ _ _ _ _ _ _ _ Hrun x Hx)
      as [Hin|(k & rest & Hk & Hp)]; [inversion Hin|].
    exists k, rest. split; [lia|exact Hp].
  - now destruct (parse_items_not_validation _ _ _ _ _ _ _ _ Hrun).
  - discriminate.
Qed.

(** The loop only ever adds: to the values, at most one per item; to
    the issues, at least one per [ValidationError] that is not empty. *)
Lemma parse_items_lengths item items : forall i elems found st elems' found' st',
  parse_items item i items elems found st = (Return (elems', found'), st') ->
  length elems' <= length elems + length items
  /\ length found <= length found'
  /\ ((forall x s err s', parse item x s = (ThrowValidation err, s') ->
                          issues err <> []) ->
      found' = [] -> length elems' = length elems + length items).
Proof.
  induction items as [|y items IH]; intros i elems found st elems' found' st' H.
  - simpl in H. injection H as <- <- <-. simpl. repeat split; lia.
  - simpl in H. destruct (parse item y st) as [[v|err|e] st1] eqn:Hy.
    + destruct (IH _ _ _ _ _ _ _ H) as (Hle & Hf & Heq).
      rewrite length_app in Hle, Heq. simpl in *.
      split; [lia|]. split; [exact Hf|]. intros Hne Hnil.
      rewrite (Heq Hne Hnil). lia.
    + destruct (IH _ _ _ _ _ _ _ H) as (Hle & Hf & Heq).
      rewrite length_app in Hf. simpl in *.
      split; [lia|]. split; [lia|]. intros Hne Hnil. exfalso.
      subst found'. simpl in Hf.
      specialize (Hne _ _ _ _ Hy). unfold withPrefix in Hf.
      rewrite length_map in Hf. destruct (issues err); [congruence|simpl in Hf; lia].
    + discriminate.
Qed.

(** X4: [parse] returns at most one value per item, and exactly one per
    item when the item schema never throws an empty [ValidationError]. *)
Theorem array_parse_return_length this (items : list JsValue) (st st' : St)
        (elems : list T) :
  ArraySchema_parse this (JsArray items) st = (Return elems, st') ->
  length elems <= length items
  /\ ((forall x s err s',
          parse (itemSchema this) x s = (ThrowValidation err, s') ->
          issues err <> []) ->
      length elems = length items).
Proof.
  unfold ArraySchema_parse.
  destruct (bound_fires length_lt _ _); [discriminate|].
  destruct (bound_fires length_gt _ _); [discriminate|].
  destruct (parse_items (itemSchema this) 0 items [] [] st)
    as [[[elems' found]|err'|e] st''] eqn:Hrun; [|discriminate|discriminate].
  destruct found as [|f found]; [|discriminate]. intros [= <- <-].
  destruct (parse_items_lengths _ _ _ _ _ _ _ _ _ Hrun) as (Hle & _ & Heq).
  simpl in *. split; [exact Hle|]. intros Hne. now apply Heq.
Qed.

(** An [ArraySchema] used as an item schema never throws an empty
    [ValidationError], so arrays of arrays keep every item too. *)
Lemma ArraySchema_schema_nonempty this (x : JsValue) (s s' : St)
      (err : ValidationError) :
  parse (ArraySchema_schema this) x s = (ThrowValidation err, s') ->
  issues err <> [].
Proof.
  simpl. unfold ArraySchema_parse. intros H.
  destruct x; try (injection H as <- _; discriminate).
  destruct (bound_fires length_lt _ _); [injection H as <- _; discriminate|].
  destruct (bound_fires length_gt _ _); [injection H as <- _; discriminate|].
  destruct (parse_items (itemSchema this) 0 items [] [] s)
    as [[[elems found]|err'|e] s''] eqn:Hrun.
  - destruct found; [discriminate|]. injection H as <- _. discriminate.
  - injection H as <- _.
    now destruct (parse_items_not_validation _ _ _ _ _ _ _ _ Hrun).
  - discriminate.
Qed.
End ArrayFurther.

Lemma array_parse_not_an_array_witness :
  ArraySchema_parse booleans_2_4 JsNull tt
  = (ThrowValidation
       (mkValidationError [mkIssue invalidType [] "array" "object"]), tt).
Proof.
  apply (array_parse_not_an_array booleans_2_4 JsNull tt).
  intros items. discriminate.
Defined.

Lemma array_parse_return_within_bounds_witness :
  (2 <= Z.of_nat (length [JsBoolean true; JsBoolean false; JsBoolean true]))%Z
  /\ (Z.of_nat (length [JsBoolean true; JsBoolean false; JsBoolean true]) <= 4)%Z.
Proof.
  pose proof (array_parse_return_within_bounds booleans_2_4
                [JsBoolean true; JsBoolean false; JsBoolean true] tt tt
                [true; false; true] eq_refl) as (_ & _ & Hmin & Hmax).
  split; [apply Hmin; reflexivity|apply Hmax; [reflexivity|discriminate]].
Defined.

Lemma array_parse_error_shape_witness :
  issues (mkValidationError
            [mkIssue invalidType ["0"] "boolean" "number";
             mkIssue invalidType ["1"] "boolean" "number"]) <> []
  /\ ((exists x,
          issues (mkValidationError
                    [mkIssue invalidType ["0"] "boolean" "number";
                     mkIssue invalidType ["1"] "boolean" "number"]) = [x]
          /\ issue_path x = [] /\ tt = tt)
      \/ (exists items,
             JsArray [JsNumber (Num_int 1); JsNumber (Num_int 2)] = JsArray items
             /\ forall x,
                  x ∈ issues (mkValidationError
                                [mkIssue invalidType ["0"] "boolean" "number";
                                 mkIssue invalidType ["1"] "boolean" "number"]) ->
                  exists k rest, k < length items
                                 /\ issue_path x = nat_toString k :: rest)).
Proof.
  apply (array_parse_error_shape booleans_2_4
           (JsArray [JsNumber (Num_int 1); JsNumber (Num_int 2)]) tt tt).
  reflexivity.
Defined.

Lemma array_parse_return_length_witness :
  length [[true]; [false; true]]
  = length [JsArray [JsBoolean true];
            JsArray [JsBoolean false; JsBoolean true]].
Proof.
  apply (array_parse_return_length
           (array (ArraySchema_schema (array (@boolean unit Empty_set))))
           [JsArray [JsBoolean true]; JsArray [JsBoolean false; JsBoolean true]]
           tt tt [[true]; [false; true]] eq_refl).
  intros x s err s'. apply ArraySchema_schema_nonempty.
Defined.

(** ** Arrays of booleans *)

Section ArrayOfBooleans.
Context {St E : Type}.

Lemma parse_items_boolean (items : list JsValue) :
  forall (i : nat) (elems : list bool) (found : list Issue) (st : St),
  parse_items (@boolean St E) i items elems found st
  = (Return (elems ++ booleans_of items, found ++ boolean_issues i items), st).
Proof.
  induction items as [|x items IH]; intros i elems found st; simpl.
  - now rewrite !app_nil_r.
  - destruct x; simpl; rewrite IH; simpl; now rewrite <- ?app_assoc.
Qed.

Lemma boolean_issues_nil (items : list JsValue) : forall i,
  boolean_issues i items = [] -> items = map JsBoolean (booleans_of items).
Proof.
  induction items as [|x items IH]; intros i H; [reflexivity|].
  destruct x; simpl in H; try discriminate. simpl. f_equal. eauto.
Qed.

(** X5: past the bounds checks, [array(boolean())] throws one issue
    [invalidType] for each item that is not a boolean, with the item's
    decimal index as path, expected ["boolean"] and actual the item's
    [typeof] tag, in item order; when every item is a boolean it returns
    them.  The state is never touched. *)
Theorem array_of_booleans_parse (min max : option number)
        (items : list JsValue) (st : St) :
  bound_fires length_lt min (length items) = None ->
  bound_fires length_gt max (length items) = None ->
  ArraySchema_parse (mkArraySchema (@boolean St E) min max) (JsArray items) st
  = (match boolean_issues 0 items with
     | [] => Return (booleans_of items)
     | _ :: _ => ThrowValidation (mkValidationError (boolean_issues 0 items))
     end, st).
Proof.
  intros Hmin Hmax. unfold ArraySchema_parse. simpl.
  rewrite Hmin, Hmax, parse_items_boolean. simpl.
  now destruct (boolean_issues 0 items).
Qed.

(** X6: booleans put in an array come back from [array(boolean())] as
    they went in; and whatever the bounds, an array that a schema of
    booleans returns from held exactly the booleans returned, as
    booleans. *)
Theorem array_of_booleans_round_trip :
  (forall (bs : list bool) (st : St),
      ArraySchema_parse (array (@boolean St E)) (JsArray (map JsBoolean bs)) st
      = (Return bs, st))
  /\ (forall (min max : option number) (items : list JsValue)
             (bs : list bool) (st st' : St),
         ArraySchema_parse (mkArraySchema (@boolean St E) min max)
                           (JsArray items) st
         = (Return bs, st') ->
         items = map JsBoolean bs /\ st' = st).
Proof.
  split.
  - intros bs st. unfold ArraySchema_parse. simpl.
    rewrite parse_items_boolean. simpl.
    assert (Hi : forall i, boolean_issues i (map JsBoolean bs) = []).
    { induction bs as [|b bs IH]; intros i; simpl; auto. }
    assert (Hb : booleans_of (map JsBoolean bs) = bs).
    { clear Hi. induction bs as [|b bs IH]; simpl; [reflexivity|].
      now rewrite IH. }
    now rewrite Hi, Hb.
  - intros min max items bs st st'. unfold ArraySchema_parse. simpl.
    destruct (bound_fires length_lt _ _); [discriminate|].
    destruct (bound_fires length_gt _ _); [discriminate|].
    rewrite parse_items_boolean. simpl.
    destruct (boolean_issues 0 items) eqn:Hi; [|discriminate].
    intros [= <- <-]. split; [|reflexivity].
    now apply (boolean_issues_nil items 0).
Qed.
End ArrayOfBooleans.

Lemma array_of_booleans_parse_witness :
  ArraySchema_parse booleans_2_4
    (JsArray [JsNull; JsBoolean true; JsString "no"]) tt
  = (ThrowValidation
       (mkValidationError [mkIssue invalidType ["0"] "boolean" "object";
                           mkIssue invalidType ["2"] "boolean" "string"]), tt).
Proof.
  apply (array_of_booleans_parse (Some (Num_int 2)) (Some (Num_int 4))
           [JsNull; JsBoolean true; JsString "no"] tt); reflexivity.
Defined.

Lemma array_of_booleans_round_trip_witness :
  [JsBoolean true; JsBoolean false; JsBoolean false]
  = map JsBoolean [true; false; false] /\ tt = tt.
Proof.
  apply (proj2 (@array_of_booleans_round_trip unit Empty_set)
           (Some (Num_int 2)) (Some (Num_int 4))
           [JsBoolean true; JsBoolean false; JsBoolean false]
           [true; false; false] tt tt).
  reflexivity.
Defined.

(** ** Degenerate bounds and the composition of modifiers *)

Section BoundsFurther.
Context {St E T : Type}.
Implicit Types (this : ArraySchema St E T) (item : Schema St E T).

(** X7: a negative whole [maxItems], of magnitude at most 2^53 so that
    its text is its decimal string, rejects every array that passes the
    [minItems] check, the empty array included, with the issue
    [tooLong]; the item schema is not called. *)
Theorem array_negative_max_rejects_all this (items : list JsValue) (st : St)
        (m : Z) :
  maxItems this = Some (Num_int m) -> (m < 0)%Z -> exact_integer m ->
  (forall n, minItems this = Some n -> length_lt (length items) n = false) ->
  ArraySchema_parse this (JsArray items) st
  = (ThrowValidation
       (mkValidationError
          [mkIssue tooLong [] (Z_toString m) (nat_toString (length items))]),
     st).
Proof.
  intros Hmax Hm _ Hmin. unfold ArraySchema_parse.
  rewrite (bound_fires_lt_None _ _ Hmin).
  rewrite (bound_fires_gt _ _ (Num_int m) Hmax); [reflexivity| |].
  - simpl. apply Z.ltb_lt. lia.
  - simpl. destruct (Z.eqb_spec m 0); [lia|reflexivity].
Qed.

(** X8: a bound that is [NaN] is skipped, as an unset one is: [NaN] is
    falsy. *)
Theorem array_NaN_bound_is_skipped item (min max : option number)
        (obj : JsValue) (st : St) :
  ArraySchema_parse (ArraySchema_min (mkArraySchema item min max) Num_NaN) obj st
  = ArraySchema_parse (mkArraySchema item None max) obj st
  /\ ArraySchema_parse (ArraySchema_max (mkArraySchema item min max) Num_NaN) obj st
     = ArraySchema_parse (mkArraySchema item min None) obj st
  /\ ArraySchema_parse (ArraySchema_length (mkArraySchema item min max) Num_NaN)
                       obj st
     = ArraySchema_parse (array item) obj st.
Proof. repeat split; destruct obj; reflexivity. Qed.

(** X9: the modifiers compose field by field: of two calls of [min]
    (or of [max]) the later one counts, [min] and [max] commute, [length]
    replaces both bounds whatever came before, and none of them changes
    the item schema. *)
Theorem array_modifiers_compose this (a b : number) :
  ArraySchema_min (ArraySchema_min this a) b = ArraySchema_min this b
  /\ ArraySchema_max (ArraySchema_max this a) b = ArraySchema_max this b
  /\ ArraySchema_max (ArraySchema_min this a) b
     = ArraySchema_min (ArraySchema_max this b) a
  /\ ArraySchema_length (ArraySchema_min this a) b = ArraySchema_length this b
  /\ ArraySchema_length (ArraySchema_max this a) b = ArraySchema_length this b
  /\ ArraySchema_min (ArraySchema_length this a) b
     = ArraySchema_max (ArraySchema_min this b) a
  /\ itemSchema (ArraySchema_min this a) = itemSchema this
  /\ itemSchema (ArraySchema_max this a) = itemSchema this
  /\ itemSchema (ArraySchema_length this a) = itemSchema this.
Proof. repeat split. Qed.
End BoundsFurther.

Lemma array_negative_max_rejects_all_witness :
  ArraySchema_parse (ArraySchema_max (array recording) (Num_int (-1)))
                    (JsArray []) []
  = (ThrowValidation (mkValidationError [mkIssue tooLong [] "-1" "0"]), []).
Proof.
  apply (array_negative_max_rejects_all
           (ArraySchema_max (array recording) (Num_int (-1))) [] [] (-1)%Z).
  - reflexivity.
  - reflexivity.
  - unfold exact_integer. simpl. lia.
  - intros n Hn. discriminate.
Defined.

(** ** [DateSchema.parse] *)

(** X10: a date that [parse] returns parses to itself when given
    again; and [parse] returns an invalid date only when the input is
    that very date. *)
Theorem date_parse_returned (Date_parse : string -> option Z) (E : Type)
        (obj : JsValue) (d : Date) :
  @DateSchema_parse Date_parse E obj = Return d ->
  @DateSchema_parse Date_parse E (JsDate d) = Return d
  /\ (not_Invalid_Date d = false -> obj = JsDate d)
  /\ (obj = JsDate d \/ (d = new_Date Date_parse obj /\ timeValue d <> None)).
Proof.
  intros H. split; [reflexivity|].
  assert (Hcases : obj = JsDate d
                   \/ (d = new_Date Date_parse obj
                       /\ not_Invalid_Date d = true)).
  { destruct obj; simpl in H; try discriminate.
    - right. destruct (not_Invalid_Date _) eqn:Hv; [|discriminate].
      injection H as <-. auto.
    - right. destruct (not_Invalid_Date _) eqn:Hv; [|discriminate].
      injection H as <-. auto.
    - left. congruence. }
  split.
  - intros Hinv. destruct Hcases as [->|[_ Hv]]; [reflexivity|congruence].
  - destruct Hcases as [->|[Hd Hv]]; [now left|right]. split; [exact Hd|].
    unfold not_Invalid_Date in Hv. destruct (timeValue d); [discriminate|discriminate].
Qed.

Lemma date_parse_returned_witness :
  @DateSchema_parse (fun _ => None) Empty_set
     (JsDate (mkDate (Some 86400000%Z))) = Return (mkDate (Some 86400000%Z))
  /\ (not_Invalid_Date (mkDate (Some 86400000%Z)) = false ->
      JsNumber (Num_int 86400000) = JsDate (mkDate (Some 86400000%Z)))
  /\ (JsNumber (Num_int 86400000) = JsDate (mkDate (Some 86400000%Z))
      \/ (mkDate (Some 86400000%Z)
          = new_Date (fun _ => None) (JsNumber (Num_int 86400000))
          /\ timeValue (mkDate (Some 86400000%Z)) <> None)).
Proof.
  apply (date_parse_returned (fun _ => None) Empty_set
           (JsNumber (Num_int 86400000)) (mkDate (Some 86400000%Z))).
  reflexivity.
Defined.

(** ** [endpoint]: [handle] *)

Section Handle.
Context {St X RawBody Query Headers Req Log Http : Type}.
Variable format : ValidationError -> string.
Variable new_Log : Log.
Variable new_Http : Log -> Http.
Variable JSON_buffer : JsValue -> Outcome (Exn X) (list Byte.byte).

Abbreviation Options :=
  (@EndpointOptions St X RawBody Query Headers Req Log Http).
Abbreviation run := (handle format new_Log new_Http JSON_buffer).

Implicit Types (options : Options) (req : @Request RawBody)
         (params : gmap string string) (st : St).

(** X11: [handle] deserializes the body, then parses the query, then
    the headers, and stops at the first of the three that throws: the
    state is the one that call left, so the later schemas and the handler
    [do] are not called, and what is thrown is what the [catch] block
    makes of the thrown value. *)
Theorem handle_stops_at_first_throw options req params st :
  (forall o st1 t,
      deserialize (opt_req options) (req_body req) (content_type req) st
      = (o, st1) ->
      thrown_of o = Some t ->
      run options req params st = (Throw (caught format t), st1))
  /\ (forall b st1 o st2 t,
         deserialize (opt_req options) (req_body req) (content_type req) st
         = (Return b, st1) ->
         parse (opt_query options) (req_query req) st1 = (o, st2) ->
         thrown_of o = Some t ->
         run options req params st = (Throw (caught format t), st2))
  /\ (forall b st1 q st2 o st3 t,
         deserialize (opt_req options) (req_body req) (content_type req) st
         = (Return b, st1) ->
         parse (opt_query options) (req_query req) st1 = (Return q, st2) ->
         parse (opt_headers options) (JsObject (req_headers req)) st2
         = (o, st3) ->
         thrown_of o = Some t ->
         run options req params st = (Throw (caught format t), st3)).
Proof.
  split; [|split].
  - intros o st1 t Hd Ht. unfold handle, validate. rewrite Hd.
    destruct o; simpl in Ht; [discriminate| |]; now injection Ht as <-.
  - intros b st1 o st2 t Hd Hq Ht. unfold handle, validate. rewrite Hd, Hq.
    destruct o; simpl in Ht; [discriminate| |]; now injection Ht as <-.
  - intros b st1 q st2 o st3 t Hd Hq Hh Ht. unfold handle, validate.
    rewrite Hd, Hq, Hh.
    destruct o; simpl in Ht; [discriminate| |]; now injection Ht as <-.
Qed.

(** X12: whatever is thrown while the request is validated leaves
    [handle] as a [BadRequestError] or as the foreign value it was: a
    [ValidationError] becomes a [BadRequestError] with its formatted
    text, a [SyntaxError] one with its message, and neither of the two
    ever leaves [handle] from there. *)
Theorem handle_validation_throws_bad_request options req params st o st1 t :
  validate options req st = (o, st1) ->
  thrown_of o = Some t ->
  exists e,
    run options req params st = (Throw e, st1)
    /\ (forall err, t = inl err -> e = BadRequestError (format err))
    /\ (forall m, t = inr (SyntaxError m) -> e = BadRequestError m)
    /\ (forall m, t = inr (BadRequestError m) -> e = BadRequestError m)
    /\ (forall x, t = inr (OtherError x) -> e = OtherError x)
    /\ (forall m, e <> SyntaxError m).
Proof.
  intros Hv Ht. exists (caught format t). split.
  - unfold handle. rewrite Hv.
    destruct o as [[[b q] h]|err|e]; simpl in Ht;
      [discriminate| |]; now injection Ht as <-.
  - repeat split.
    + now intros err ->.
    + now intros m ->.
    + now intros m ->.
    + now intros x ->.
    + intros m. destruct t as [err|[m'|m'|x]]; discriminate.
Qed.

(** X13: once the request is validated, the handler [do] is called
    with the request's url, the parameters and the three validated
    values; what it throws leaves [handle] unchanged, a [ValidationError]
    or a [SyntaxError] included: they are not turned into a
    [BadRequestError]. *)
Theorem handle_handler_throw_passes options req params st b q h st1 o st2 t :
  validate options req st = (Return (b, q, h), st1) ->
  opt_do options
         (mkEndpointRequest new_Log (new_Http new_Log) (req_url req)
                            params q h b) st1 = (o, st2) ->
  thrown_of o = Some t ->
  run options req params st = (rethrow t, st2).
Proof.
  intros Hv Hd Ht. unfold handle. rewrite Hv, Hd.
  destruct o; simpl in Ht; [discriminate| |]; now injection Ht as <-.
Qed.

(** X14: when the handler returns a body that is not a [Uint8Array],
    the response has the status given, or 200, the serialized body, and
    the handler's headers with [content-type] set to [application/json]
    unless the handler set it. *)
Theorem handle_json_response options req params st b q h st1 response st2
        v bytes :
  validate options req st = (Return (b, q, h), st1) ->
  opt_do options
         (mkEndpointRequest new_Log (new_Http new_Log) (req_url req)
                            params q h b) st1 = (Return response, st2) ->
  response_body response = NotUint8Array v ->
  JSON_buffer v = Return bytes ->
  exists r,
    run options req params st = (Return r, st2)
    /\ status r = default (Num_int 200) (response_status response)
    /\ body r = bytes
    /\ headers r !! "content-type"
       = Some (default "application/json"
                 (response_headers response ≫= (.!! "content-type")))
    /\ (forall k, k <> "content-type" ->
                  headers r !! k = response_headers response ≫= (.!! k)).
Proof.
  intros Hv Hd Hb Hj. unfold handle, respond. rewrite Hv, Hd, Hb, Hj.
  eexists. split; [reflexivity|]. simpl. split; [reflexivity|].
  split; [reflexivity|]. split.
  - rewrite lookup_union.
    destruct (response_headers response) as [hs|]; simpl.
    + rewrite lookup_singleton_eq. now destruct (hs !! "content-type").
    + now rewrite lookup_empty, lookup_singleton_eq.
  - intros k Hk. rewrite lookup_union, lookup_singleton_ne by congruence.
    destruct (response_headers response) as [hs|]; simpl.
    + now destruct (hs !! k).
    + now rewrite lookup_empty.
Qed.

(** X15: when the handler returns a [Uint8Array], the response carries
    these bytes, the status given, or 200, and exactly the handler's
    headers, none when it gave none: no [content-type] is added. *)
Theorem handle_binary_response options req params st b q h st1 response st2
        bytes :
  validate options req st = (Return (b, q, h), st1) ->
  opt_do options
         (mkEndpointRequest new_Log (new_Http new_Log) (req_url req)
                            params q h b) st1 = (Return response, st2) ->
  response_body response = Uint8Array bytes ->
  run options req params st
  = (Return (mkResponse (default (Num_int 200) (response_status response))
                        bytes
                        (default ∅ (response_headers response))), st2).
Proof.
  intros Hv Hd Hb. unfold handle, respond. now rewrite Hv, Hd, Hb.
Qed.
End Handle.

Lemma handle_stops_at_first_throw_witness :
  example_handle (example_request "/a" "{" (JsBoolean true)) ∅ []
  = (Throw (BadRequestError "Unexpected end of JSON input"), ["deserialize"])
  /\ example_handle (example_request "/a" "{}" JsNull) ∅ []
     = (Throw (BadRequestError "invalid request"), ["deserialize"; "query"]).
Proof.
  split.
  - apply (proj1 (handle_stops_at_first_throw example_format tt (fun _ => tt)
                    example_JSON_buffer example_options
                    (example_request "/a" "{" (JsBoolean true)) ∅ [])
                 (Throw (SyntaxError "Unexpected end of JSON input"))
                 ["deserialize"]
                 (inr (SyntaxError "Unexpected end of JSON input")));
      reflexivity.
  - apply (proj1 (proj2 (handle_stops_at_first_throw example_format tt
                           (fun _ => tt) example_JSON_buffer example_options
                           (example_request "/a" "{}" JsNull) ∅ []))
                 "{}" ["deserialize"]
                 (ThrowValidation
                    (mkValidationError
                       [mkIssue invalidType [] "boolean" "object"]))
                 ["deserialize"; "query"]
                 (inl (mkValidationError
                         [mkIssue invalidType [] "boolean" "object"])));
      reflexivity.
Defined.

Lemma handle_validation_throws_bad_request_witness :
  exists e,
    example_handle (example_request "/a" "{}" JsNull) ∅ []
    = (Throw e, ["deserialize"; "query"])
    /\ (forall err,
           @inl _ (Exn string)
                (mkValidationError [mkIssue invalidType [] "boolean" "object"])
           = inl err ->
           e = BadRequestError (example_format err))
    /\ (forall m,
           @inl _ (Exn string)
                (mkValidationError [mkIssue invalidType [] "boolean" "object"])
           = inr (SyntaxError m) -> e = BadRequestError m)
    /\ (forall m,
           @inl _ (Exn string)
                (mkValidationError [mkIssue invalidType [] "boolean" "object"])
           = inr (BadRequestError m) -> e = BadRequestError m)
    /\ (forall x,
           @inl _ (Exn string)
                (mkValidationError [mkIssue invalidType [] "boolean" "object"])
           = inr (OtherError x) -> e = OtherError x)
    /\ (forall m, e <> SyntaxError m).
Proof.
  apply (handle_validation_throws_bad_request example_format tt (fun _ => tt)
           example_JSON_buffer example_options
           (example_request "/a" "{}" JsNull) ∅ []
           (ThrowValidation
              (mkValidationError [mkIssue invalidType [] "boolean" "object"]))
           ["deserialize"; "query"]); reflexivity.
Defined.

Lemma handle_handler_throw_passes_witness :
  example_handle (example_request "/a" "{}" (JsBoolean false)) ∅ []
  = (ThrowValidation (mkValidationError []),
     ["deserialize"; "query"; "headers"; "do"]).
Proof.
  apply (handle_handler_throw_passes example_format tt (fun _ => tt)
           example_JSON_buffer example_options
           (example_request "/a" "{}" (JsBoolean false)) ∅ []
           "{}" false tt ["deserialize"; "query"; "headers"]
           (ThrowValidation (mkValidationError []))
           ["deserialize"; "query"; "headers"; "do"]
           (inl (mkValidationError []))); reflexivity.
Defined.

Lemma handle_json_response_witness :
  exists r,
    example_handle (example_request "/a" "{}" (JsBoolean true)) ∅ []
    = (Return r, ["deserialize"; "query"; "headers"; "do"])
    /\ status r = default (Num_int 200) None
    /\ body r = [Byte.x22; Byte.x22]
    /\ headers r !! "content-type"
       = Some (default "application/json"
                 (Some ({[ "x-id" := "1" ]} : gmap string string)
                  ≫= (.!! "content-type")))
    /\ (forall k, k <> "content-type" ->
                  headers r !! k
                  = Some ({[ "x-id" := "1" ]} : gmap string string) ≫= (.!! k)).
Proof.
  apply (handle_json_response example_format tt (fun _ => tt)
           example_JSON_buffer example_options
           (example_request "/a" "{}" (JsBoolean true)) ∅ []
           "{}" true tt ["deserialize"; "query"; "headers"]
           (mkHandlerResponse None (NotUint8Array (JsString "{}"))
                              (Some {[ "x-id" := "1" ]}))
           ["deserialize"; "query"; "headers"; "do"]
           (JsString "{}") [Byte.x22; Byte.x22]); reflexivity.
Defined.

Lemma handle_binary_response_witness :
  example_handle (example_request "/raw" "{}" (JsBoolean true)) ∅ []
  = (Return (mkResponse (Num_int 201) [Byte.x2a] ∅),
     ["deserialize"; "query"; "headers"; "do"]).
Proof.
  apply (handle_binary_response example_format tt (fun _ => tt)
           example_JSON_buffer example_options
           (example_request "/raw" "{}" (JsBoolean true)) ∅ []
           "{}" true tt ["deserialize"; "query"; "headers"]
           (mkHandlerResponse (Some (Num_int 201)) (Uint8Array [Byte.x2a]) None)
           ["deserialize"; "query"; "headers"; "do"] [Byte.x2a]); reflexivity.
Defined.

(** ** [paramDocs] and the endpoint's [documentation] *)

(** What [paramDocs] takes for [required]. *)
Lemma param_entries_length (required : list JsValue) (position : string)
      (properties : list JsValue) : forall i entries,
  param_entries required position i properties = Some entries ->
  length entries = length properties
  /\ forall k p, properties !! k = Some p ->
       exists d,
         entries !! k
         = Some (JsObject
                   [("name", JsString (nat_toString (i + k)));
                    ("in", JsString position);
                    ("description", d);
                    ("required",
                     JsBoolean (includes required (nat_toString (i + k))));
                    ("schema", p)]).
Proof.
  induction properties as [|p0 properties IH]; intros i entries H; simpl in H.
  - injection H as <-. split; [reflexivity|]. intros k p Hk. discriminate.
  - unfold param_entry in H.
    destruct (has_property "description" p0) as [has|]; [|discriminate].
    simpl in H.
    destruct (param_entries required position (S i) properties) as [es|] eqn:Hes;
      [|discriminate].
    simpl in H. injection H as <-.
    destruct (IH _ _ Hes) as [Hlen Hk]. split; [simpl; now rewrite Hlen|].
    intros [|k] p Hp; simpl in Hp.
    + injection Hp as <-. rewrite Nat.add_0_r. eexists. reflexivity.
    + destruct (Hk k p Hp) as [d Hd]. exists d. simpl.
      now rewrite Nat.add_succ_r.
Qed.

Lemma param_entries_None (required : list JsValue) (position : string)
      (properties : list JsValue) : forall i,
  param_entries required position i properties = None <->
  exists p, p ∈ properties /\ has_property "description" p = None.
Proof.
  induction properties as [|p0 properties IH]; intros i; simpl.
  - split; [discriminate|]. intros (p & Hp & _). inversion Hp.
  - unfold param_entry.
    destruct (has_property "description" p0) as [has|] eqn:Hhas; simpl.
    + destruct (param_entries required position (S i) properties) as [es|] eqn:Hes;
        simpl.
      * split; [discriminate|]. intros (p & Hp & Hnone).
        apply elem_of_cons in Hp as [->|Hp]; [congruence|].
        assert (Hex : exists p, p ∈ properties
                                /\ has_property "description" p = None) by eauto.
        apply (IH (S i)) in Hex. congruence.
      * split; [|reflexivity]. intros _.
        destruct (proj1 (IH (S i)) Hes) as (p & Hp & Hnone).
        exists p. split; [now right|exact Hnone].
    + split; [|reflexivity]. intros _. exists p0. split; [left|exact Hhas].
Qed.

Section ParamDocs.
Context {St E T : Type}.
Implicit Types (params : Schema St E T).

(** X16: [paramDocs] gives no entry, and throws nothing, for a schema
    whose documentation is an object without a [properties] array, be
    [properties] missing or, as in a JSON schema, an object keyed by name;
    so the boolean, date and array schemas document no parameter. *)
Theorem paramDocs_needs_an_array params (position : string) :
  (forall props,
      documentation params = JsObject props ->
      (forall l, get_own props "properties" <> Some (JsArray l)) ->
      paramDocs params position = Some [])
  /\ paramDocs (@boolean St E) position = Some []
  /\ (forall Date_parse, paramDocs (@date Date_parse St E) position = Some [])
  /\ (forall this : ArraySchema St E T,
         paramDocs (ArraySchema_schema this) position = Some []).
Proof.
  split; [|repeat split].
  intros props Hd Hno. unfold paramDocs. rewrite Hd. simpl.
  destruct (get_own props "properties") as [v|] eqn:Hp; simpl; [|reflexivity].
  destruct v; try reflexivity. now destruct (Hno items).
Qed.

(** X17: when the documentation is an object whose [properties] is an
    array, [paramDocs] throws exactly when one of its elements is a
    primitive; otherwise it gives one entry per element, in order, named
    by the element's decimal index, placed at [position], required when
    the [required] array of the documentation holds that index as a
    string, and with the element as [schema]. *)
Theorem paramDocs_entries params (position : string)
        (props : list (string * JsValue)) (properties : list JsValue) :
  documentation params = JsObject props ->
  get_own props "properties" = Some (JsArray properties) ->
  let required := match get_own props "required" with
                  | Some (JsArray r) => r
                  | _ => []
                  end in
  (paramDocs params position = None <->
   exists p, p ∈ properties /\ has_property "description" p = None)
  /\ (forall entries,
         paramDocs params position = Some entries ->
         length entries = length properties
         /\ forall k p, properties !! k = Some p ->
              exists d,
                entries !! k
                = Some (JsObject
                          [("name", JsString (nat_toString k));
                           ("in", JsString position);
                           ("description", d);
                           ("required",
                            JsBoolean (includes required (nat_toString k)));
                           ("schema", p)])).
Proof.
  intros Hd Hp required.
  assert (Heq : paramDocs params position
                = param_entries required position 0 properties).
  { unfold paramDocs. rewrite Hd. simpl. rewrite Hp. simpl.
    unfold required. destruct (get_own props "required") as [v|]; simpl;
      reflexivity. }
  rewrite Heq. split.
  - apply param_entries_None.
  - intros entries He. apply (param_entries_length _ _ _ 0 entries He).
Qed.
End ParamDocs.

Lemma paramDocs_needs_an_array_witness :
  paramDocs object_documented "query" = Some [].
Proof.
  refine (proj1 (paramDocs_needs_an_array object_documented "query") _ _ _).
  - reflexivity.
  - intros l. discriminate.
Defined.

Lemma paramDocs_entries_witness :
  (paramDocs array_documented "header" = None <->
   exists p,
     p ∈ [JsObject [("description", JsString "first")];
          JsObject [("type", JsString "string")]]
     /\ has_property "description" p = None)
  /\ (forall entries,
         paramDocs array_documented "header" = Some entries ->
         length entries = 2
         /\ forall k p,
              [JsObject [("description", JsString "first")];
               JsObject [("type", JsString "string")]] !! k = Some p ->
              exists d,
                entries !! k
                = Some (JsObject
                          [("name", JsString (nat_toString k));
                           ("in", JsString "header");
                           ("description", d);
                           ("required",
                            JsBoolean (includes [JsString "1"] (nat_toString k)));
                           ("schema", p)])).
Proof.
  apply (paramDocs_entries array_documented "header"
           [("properties",
             JsArray [JsObject [("description", JsString "first")];
                      JsObject [("type", JsString "string")]]);
            ("required", JsArray [JsString "1"])]
           [JsObject [("description", JsString "first")];
            JsObject [("type", JsString "string")]]); reflexivity.
Defined.

Example paramDocs_array_documented :
  paramDocs array_documented "header"
  = Some [JsObject [("name", JsString "0"); ("in", JsString "header");
                    ("description", JsString "first");
                    ("required", JsBoolean false);
                    ("schema", JsObject [("description", JsString "first")])];
          JsObject [("name", JsString "1"); ("in", JsString "header");
                    ("description", JsUndefined);
                    ("required", JsBoolean true);
                    ("schema", JsObject [("type", JsString "string")])]].
Proof. reflexivity. Qed.

Section Documentation.
Context {St X RawBody Query Headers Req Log Http : Type}.
Implicit Types
  (options : @EndpointOptions St X RawBody Query Headers Req Log Http).

Lemma split_second (rest : string) :
  Path.split (String "/"%char rest) !! 1 = head (Path.split rest).
Proof.
  simpl. destruct (Path.split rest) as [|h tl] eqn:Hs; reflexivity.
Qed.

(** X18: the endpoint's documentation lists the parameters of the
    query before those of the headers, and is tagged with the category
    given, or else with the text between the first and the second slash
    of the path; it throws exactly when one of the two [paramDocs]
    does. *)
Theorem endpoint_documentation_parameters (path : string) options :
  (endpoint_documentation path options = None <->
   paramDocs (opt_query options) "query" = None
   \/ paramDocs (opt_headers options) "header" = None)
  /\ (forall q h,
         paramDocs (opt_query options) "query" = Some q ->
         paramDocs (opt_headers options) "header" = Some h ->
         exists props,
           endpoint_documentation path options = Some (JsObject props)
           /\ get_own props "parameters" = Some (JsArray (q ++ h))
           /\ get_own props "tags" = Some (JsArray [tag path options]))
  /\ (forall c, opt_category options = Some c ->
                tag path options = JsString c)
  /\ (forall rest, opt_category options = None ->
                   path = String "/"%char rest ->
                   exists first,
                     head (Path.split rest) = Some first
                     /\ tag path options = JsString first).
Proof.
  split; [|split; [|split]].
  - unfold endpoint_documentation.
    destruct (paramDocs (opt_query options) "query") as [q|]; simpl.
    + destruct (paramDocs (opt_headers options) "header") as [h|]; simpl.
      * split; [discriminate|]. intros [H|H]; discriminate.
      * split; auto.
    + split; auto.
  - intros q h Hq Hh. unfold endpoint_documentation. rewrite Hq, Hh. simpl.
    eexists. split; [reflexivity|]. split; reflexivity.
  - intros c Hc. unfold tag. now rewrite Hc.
  - intros rest Hc ->. unfold tag. rewrite Hc, split_second.
    destruct (Path.split rest) as [|first tl] eqn:Hs;
      [now destruct (split_not_nil rest)|].
    exists first. split; reflexivity.
Qed.
End Documentation.

Lemma endpoint_documentation_parameters_witness :
  exists first,
    head (Path.split "users/:id") = Some first
    /\ tag "/users/:id" example_options = JsString first.
Proof.
  apply (proj2 (proj2 (proj2
           (endpoint_documentation_parameters "/users/:id" example_options)))
           "users/:id"); reflexivity.
Defined.
